(** * vyatta.cpuset: the [Cpuset] class of vyatta-cpu-shield

    A shallow embedding of [usr/lib/python3/dist-packages/vyatta/cpuset.py]
    and the properties of its three notations (range, list and mask) and of
    its two set operations.

    Modelling conventions.
    - A Python [str] is a [string]; a character is an [ascii], read as the
      code point of the same number (so the model covers the text whose code
      points are below 256).
    - A Python [int] is a [Z]; nothing wraps around.
    - A call that can raise returns a [result]: [Ok v] or [Raise e].
    - Local variables of a loop are the fields of a record that the loop
      body transforms; a loop is a recursion over the sequence it iterates.
    - The limit that recent interpreters put on the number of decimal digits
      accepted by [int()] and produced by [str()] is not modelled.
    - Memory is not modelled: [1 << n] is [2 ^ n] for every [n >= 0], while
      the interpreter raises [MemoryError] or [OverflowError] when [n] is
      too large for the integer to be held.  Shift counts stay small where
      a mask of hexadecimal digits gives them (bit positions below four
      times its length); the property that tells what [mask()] returns for
      range text bounds the CPU numbers by [cpu_bound]. *)

From Stdlib Require Import ZArith NArith Lia List Bool Ascii String Permutation
  Sorted.
Import ListNotations.

Local Open Scope list_scope.
Local Open Scope string_scope.
Local Open Scope Z_scope.

(** ** Exceptions and the error monad *)

Inductive exn : Type :=
| ValueError
| IndexError
| UnboundLocalError.

Inductive result (A : Type) : Type :=
| Ok (a : A)
| Raise (e : exn).

Arguments Ok {A} a.
Arguments Raise {A} e.

Definition bind {A B : Type} (r : result A) (k : A -> result B) : result B :=
  match r with
  | Ok a => k a
  | Raise e => Raise e
  end.

Notation "x <- r ;; k" := (bind r (fun x => k))
  (at level 61, r at next level, right associativity).

(** ** The built-ins of Python that the module calls *)

Module Py.

(** Code point of a character. *)
Definition ord (c : ascii) : Z := Z.of_N (N_of_ascii c).

Definition chr (n : Z) : ascii := ascii_of_N (Z.to_N n).

Definition in_range (lo hi : Z) (c : ascii) : bool :=
  (lo <=? ord c) && (ord c <=? hi).

(** [str.isspace] on one character: what [str.strip()] removes. *)
Definition is_space (c : ascii) : bool :=
  in_range 9 13 c || in_range 28 32 c || (ord c =? 133) || (ord c =? 160).

(** The white space that [int()] skips around a number: the code points
    28 to 31 are not part of it. *)
Definition is_int_space (c : ascii) : bool :=
  in_range 9 13 c || (ord c =? 32) || (ord c =? 133) || (ord c =? 160).

Definition is_dec (c : ascii) : bool := in_range 48 57 c.

(** [str.isdigit] on one character: the decimal digits and the superscript
    digits of Latin-1. *)
Definition is_digit_char (c : ascii) : bool :=
  is_dec c || (ord c =? 178) || (ord c =? 179) || (ord c =? 185).

(** Value of a hexadecimal digit, either case. *)
Definition hex_value (c : ascii) : option Z :=
  if in_range 48 57 c then Some (ord c - 48)
  else if in_range 97 102 c then Some (ord c - 87)
  else if in_range 65 70 c then Some (ord c - 55)
  else None.

Definition is_hex (c : ascii) : bool :=
  match hex_value c with Some _ => true | None => false end.

(** [int(char, 16)] for a string [char] of one character. *)
Definition int16_char (c : ascii) : result Z :=
  match hex_value c with
  | Some d => Ok d
  | None => Raise ValueError
  end.

Fixpoint lstrip_with (sp : ascii -> bool) (s : string) : string :=
  match s with
  | EmptyString => EmptyString
  | String c r => if sp c then lstrip_with sp r else s
  end.

Fixpoint rstrip_with (sp : ascii -> bool) (s : string) : string :=
  match s with
  | EmptyString => EmptyString
  | String c r =>
      match rstrip_with sp r with
      | EmptyString => if sp c then EmptyString else String c EmptyString
      | r' => String c r'
      end
  end.

(** [s.strip()] *)
Definition strip (s : string) : string :=
  rstrip_with is_space (lstrip_with is_space s).

(** [s.split(sep)] for a separator of one character. *)
Fixpoint split (sep : ascii) (s : string) : list string :=
  match s with
  | EmptyString => [EmptyString]
  | String c r =>
      if Ascii.eqb c sep then EmptyString :: split sep r
      else match split sep r with
           | h :: t => String c h :: t
           | [] => [String c EmptyString]
           end
  end.

(** [sep.join(l)] *)
Fixpoint join (sep : string) (l : list string) : string :=
  match l with
  | [] => EmptyString
  | [x] => x
  | x :: r => x ++ sep ++ join sep r
  end.

(** [c in s] for a string [c] of one character. *)
Fixpoint contains (c : ascii) (s : string) : bool :=
  match s with
  | EmptyString => false
  | String d r => Ascii.eqb d c || contains c r
  end.

Fixpoint all_chars (p : ascii -> bool) (s : string) : bool :=
  match s with
  | EmptyString => true
  | String c r => p c && all_chars p r
  end.

(** [s.isdigit()]: every character is a digit and there is at least one. *)
Definition isdigit (s : string) : bool :=
  match s with
  | EmptyString => false
  | _ => all_chars is_digit_char s
  end.

(** [x in l] for a list of strings. *)
Definition mem (x : string) (l : list string) : bool :=
  existsb (String.eqb x) l.

(** [s\[::-1\]] *)
Definition reversed (s : string) : string :=
  string_of_list_ascii (rev (list_ascii_of_string s)).

(** The digits of a number in a base, least significant first.  [fuel]
    bounds the number of digits. *)
Fixpoint digits_lsb (base : Z) (fuel : nat) (n : Z) : list Z :=
  match fuel with
  | O => []
  | S f => if n =? 0 then [] else (n mod base) :: digits_lsb base f (n / base)
  end.

Definition digit_char (d : Z) : ascii :=
  if d <? 10 then chr (48 + d) else chr (87 + d).

(** The numeral of a non-negative number, most significant digit first. *)
Definition numeral (base : Z) (n : Z) : string :=
  if n =? 0 then "0"
  else string_of_list_ascii
         (rev (map digit_char (digits_lsb base (S (Z.to_nat (Z.log2 n))) n))).

(** [str(n)] for an [int]. *)
Definition str (n : Z) : string :=
  if n <? 0 then String "-" (numeral 10 (- n)) else numeral 10 n.

(** [format(n, 'x')] for an [int]. *)
Definition format_x (n : Z) : string :=
  if n <? 0 then String "-" (numeral 16 (- n)) else numeral 16 n.

(** The digits of a decimal literal after its sign: digits, with single
    underscores allowed between two digits. [prev] tells that the previous
    character was a digit. *)
Fixpoint int_digits (acc : Z) (prev : bool) (s : string) : option Z :=
  match s with
  | EmptyString => if prev then Some acc else None
  | String c r =>
      if is_dec c then int_digits (10 * acc + (ord c - 48)) true r
      else if Ascii.eqb c "_" && prev then int_digits acc false r
      else None
  end.

(** [int(s)]: white space around the literal is skipped, one sign is
    allowed, and anything else is a [ValueError]. *)
Definition int (s : string) : result Z :=
  let t := rstrip_with is_int_space (lstrip_with is_int_space s) in
  let '(neg, body) :=
    match t with
    | String "+" r => (false, r)
    | String "-" r => (true, r)
    | _ => (false, t)
    end in
  match int_digits 0 false body with
  | Some n => Ok (if neg then - n else n)
  | None => Raise ValueError
  end.

(** [1 << n]: a negative shift count is a [ValueError].  The failure of the
    interpreter on a shift count too large for its memory is not modelled. *)
Definition shl1 (n : Z) : result Z :=
  if n <? 0 then Raise ValueError else Ok (Z.shiftl 1 n).

(** [range(lo, hi)] *)
Definition range (lo hi : Z) : list Z :=
  map (fun k => lo + Z.of_nat k) (seq 0 (Z.to_nat (hi - lo))).

(** [range(start, stop, 8)] on indices. *)
Fixpoint range8 (fuel : nat) (start stop : nat) : list nat :=
  match fuel with
  | O => []
  | S f => if (start <? stop)%nat then start :: range8 f (start + 8) stop else []
  end.

(** [s\[i:j\]] for [0 <= i <= j]. *)
Definition slice (i j : nat) (s : string) : string :=
  substring i (j - i) s.

End Py.

(** ** The class *)

Module Cpuset.

Record t : Type := mk { cpus : string }.

(** The local variables of the loop of [_mask_to_range].  [bit] is unbound
    until a set bit is met. *)
Record scan : Type := {
  all_cpus : string;
  start : Z;
  last : Z;
  sep : string;
  bit : option Z
}.

(** The body of [for i in range(0, 4)], lines 30 to 49. *)
Definition scan_bit (char : ascii) (count : Z) (st : scan) (i : Z)
  : result scan :=
  let char_mask := Z.shiftl 1 i in
  d <- Py.int16_char char ;;
  if negb (Z.land char_mask d =? 0) then
    let b := i + count in
    if st.(start) >=? 0 then
      if b =? st.(last) + 1 then
        Ok {| all_cpus := st.(all_cpus); start := st.(start); last := b;
              sep := st.(sep); bit := Some b |}
      else
        Ok {| all_cpus := st.(all_cpus); start := st.(start);
              last := st.(last); sep := st.(sep); bit := Some b |}
    else
      Ok {| all_cpus := st.(all_cpus) ++ (st.(sep) ++ Py.str b);
            start := b; last := b; sep := ","; bit := Some b |}
  else
    st1 <- (if st.(start) >=? 0 then
              if negb (st.(start) =? st.(last)) then
                match st.(bit) with
                | Some b =>
                    Ok {| all_cpus := st.(all_cpus) ++ ("-" ++ Py.str b);
                          start := st.(start); last := st.(last);
                          sep := st.(sep); bit := st.(bit) |}
                | None => Raise UnboundLocalError
                end
              else Ok st
            else Ok st) ;;
    Ok {| all_cpus := st1.(all_cpus); start := -1; last := st1.(last);
          sep := st1.(sep); bit := st1.(bit) |}.

Fixpoint scan_bits (char : ascii) (count : Z) (st : scan) (idx : list Z)
  : result scan :=
  match idx with
  | [] => Ok st
  | i :: r => st' <- scan_bit char count st i ;; scan_bits char count st' r
  end.

(** [for char in cpus], lines 28 to 50; [count] grows by 4 per character. *)
Fixpoint scan_chars (cs : list ascii) (count : Z) (st : scan) : result scan :=
  match cs with
  | [] => Ok st
  | char :: r =>
      st' <- scan_bits char count st (Py.range 0 4) ;;
      scan_chars r (count + 4) st'
  end.

Definition scan_init : scan :=
  {| all_cpus := ""; start := -1; last := 0; sep := ""; bit := None |}.

(** [Cpuset._mask_to_range] *)
Definition _mask_to_range (mask : string) : result string :=
  let cpus := Py.reversed mask in
  st <- scan_chars (list_ascii_of_string cpus) 0 scan_init ;;
  if st.(start) >=? 0 then
    if negb (st.(start) =? st.(last)) then
      Ok (st.(all_cpus) ++ ("-" ++ Py.str st.(last)))
    else Ok st.(all_cpus)
  else Ok st.(all_cpus).

(** The loop [mask = 0; for num in l: mask = mask + (1 << int(num))], which
    [_list_to_range] and [_range_to_mask] both run. *)
Fixpoint sum_shifts (mask : Z) (l : list string) : result Z :=
  match l with
  | [] => Ok mask
  | num :: r =>
      n <- Py.int num ;;
      p <- Py.shl1 n ;;
      sum_shifts (mask + p) r
  end.

(** [Cpuset._list_to_range] *)
Definition _list_to_range (_list : string) : result string :=
  mask <- sum_shifts 0 (Py.split "," _list) ;;
  _mask_to_range (Py.format_x mask).

(** The pair of locals [all_cpus] and [sep] of a loop that appends
    separated items. *)
Definition emit (acc : string * string) (item : string) : string * string :=
  ((fst acc ++ snd acc) ++ item, ",").

(** The loop over the tokens of [self.cpus], lines 77 to 87. *)
Fixpoint expand (acc : string * string) (l : list string)
  : result (string * string) :=
  match l with
  | [] => Ok acc
  | val :: r =>
      if Py.contains "-" val then
        match Py.split "-" val with
        | n0 :: n1 :: _ =>
            lo <- Py.int n0 ;;
            hi <- Py.int n1 ;;
            expand (fold_left (fun a i => emit a (Py.str i))
                              (Py.range lo (hi + 1)) acc) r
        | _ => Raise IndexError
        end
      else expand (emit acc val) r
  end.

(** [Cpuset._range_to_list] *)
Definition _range_to_list (self : t) : result string :=
  if (self.(cpus) =? "")%string then Ok ""
  else
    r <- expand ("", "") (Py.split "," self.(cpus)) ;;
    Ok (fst r).

(** The grouping of the hexadecimal digits, lines 102 to 104. *)
Definition group_hex (m : string) : string :=
  let start := (String.length m mod 8)%nat in
  let mslw := if negb (start =? 0)%nat then Py.slice 0 start m ++ "," else "" in
  mslw ++ Py.join ","
            (map (fun i => Py.slice i (i + 8) m)
                 (Py.range8 (String.length m) start (String.length m))).

(** [Cpuset._range_to_mask] *)
Definition _range_to_mask (self : t) : result string :=
  if (self.(cpus) =? "")%string then Ok ""
  else
    _list <- _range_to_list self ;;
    mask <- sum_shifts 0 (Py.split "," _list) ;;
    Ok (group_hex (Py.format_x mask)).

(** [Cpuset.__init__] *)
Definition new (text : string) (mask : bool) : result t :=
  let self := {| cpus := Py.strip text |} in
  if mask then
    r <- _mask_to_range (Py.strip text) ;;
    Ok {| cpus := r |}
  else Ok self.

(** [Cpuset.range], [Cpuset.list] and [Cpuset.mask] *)
Definition range (self : t) : string := self.(cpus).
Definition list (self : t) : result string := _range_to_list self.
Definition mask (self : t) : result string := _range_to_mask self.

(** The loops of [add_cpuset] and [remove_cpuset] that keep the tokens
    passing a test and made of digits. *)
Fixpoint keep_digits (keep : string -> result bool) (acc : string * string)
  (l : Datatypes.list string) : result (string * string) :=
  match l with
  | [] => Ok acc
  | cpu :: r =>
      k <- keep cpu ;;
      if k then
        if Py.isdigit cpu then keep_digits keep (emit acc cpu) r
        else keep_digits keep acc r
      else keep_digits keep acc r
  end.

(** [Cpuset.add_cpuset]: the new state of [self].  When the call raises,
    [self] is unchanged, the assignment being the last statement. *)
Definition add_cpuset (self cpuset : t) : result t :=
  la <- list self ;;
  let cpuset_a := Py.split "," la in
  lb <- list cpuset ;;
  let cpuset_b := Py.split "," lb in
  acc1 <- keep_digits (fun _ => Ok true) ("", "") cpuset_a ;;
  acc2 <- keep_digits (fun cpu => Ok (negb (Py.mem cpu cpuset_a))) acc1 cpuset_b ;;
  r <- _list_to_range (fst acc2) ;;
  Ok {| cpus := r |}.

(** [Cpuset.remove_cpuset]: the new state of [self]; [cpuset.list()] is
    evaluated again for each token of [self]. *)
Definition remove_cpuset (self cpuset : t) : result t :=
  la <- list self ;;
  acc <- keep_digits
           (fun cpu => lb <- list cpuset ;;
                       Ok (negb (Py.mem cpu (Py.split "," lb))))
           ("", "") (Py.split "," la) ;;
  if (fst acc =? "")%string then Ok {| cpus := "" |}
  else
    r <- _list_to_range (fst acc) ;;
    Ok {| cpus := r |}.

(** The state of [self] after a call that may have raised. *)
Definition after (self : t) (r : result t) : t :=
  match r with
  | Ok s => s
  | Raise _ => self
  end.

End Cpuset.

Import Cpuset(cpus).

(** ** Notions used to state the properties *)

(** Value of a string of decimal digits. *)
Fixpoint dec_fold (acc : Z) (s : string) : Z :=
  match s with
  | EmptyString => acc
  | String c r => dec_fold (10 * acc + (Py.ord c - 48)) r
  end.

Definition dec_value (s : string) : Z := dec_fold 0 s.

(** A non-negative integer written with decimal digits. *)
Definition is_number (s : string) : bool :=
  match s with
  | EmptyString => false
  | _ => Py.all_chars Py.is_dec s
  end.

(** An entry of range notation: a number, or [lo-hi] with [lo < hi]. *)
Definition valid_entry (e : string) : bool :=
  match Py.split "-" e with
  | [a] => is_number a
  | [a; b] => is_number a && is_number b && (dec_value a <? dec_value b)
  | _ => false
  end.

(** Range notation: the empty string for the empty set, or entries
    separated by commas. *)
Definition valid_range (r : string) : bool :=
  (r =? "")%string || forallb valid_entry (Py.split "," r).

(** The CPUs that an entry and a range denote, in the order of the text. *)
Definition entry_members (e : string) : list Z :=
  match Py.split "-" e with
  | [a] => [dec_value a]
  | a :: b :: _ => Py.range (dec_value a) (dec_value b + 1)
  | [] => []
  end.

Definition members_of (r : string) : list Z :=
  if (r =? "")%string then [] else flat_map entry_members (Py.split "," r).

(** The bitmask of a list of CPUs: bit [n] is set when [n] is listed. *)
Definition bitmask (ms : list Z) : Z :=
  fold_right (fun p acc => Z.setbit acc p) 0 ms.

(** What the loop of [sum_shifts] adds up. *)
Definition sum2 (ms : list Z) : Z :=
  fold_right (fun p acc => 2 ^ p + acc) 0 ms.

(** Value of a list of digits, least significant first. *)
Definition from_digits (base : Z) (ds : list Z) : Z :=
  fold_right (fun d acc => d + base * acc) 0 ds.

(** The bits of a mask, least significant first: four per character. *)
Definition digit_bits (d : Z) : list bool :=
  map (fun i => negb (Z.land (Z.shiftl 1 i) d =? 0)) (Py.range 0 4).

Definition char_bits (c : ascii) : list bool :=
  match Py.hex_value c with
  | Some d => digit_bits d
  | None => []
  end.

Definition mask_bits (m : string) : list bool :=
  flat_map char_bits (rev (list_ascii_of_string m)).

Definition is_hex_string (m : string) : bool := Py.all_chars Py.is_hex m.

(** Value of a list of bits, least significant first. *)
Fixpoint bval (bs : list bool) : Z :=
  match bs with
  | [] => 0
  | b :: r => Z.b2z b + 2 * bval r
  end.

(** The maximal runs of set bits of a list of bits that starts at position
    [pos]; [open] is the run that the bit before [pos] belongs to. *)
Fixpoint runs (pos : Z) (open : option (Z * Z)) (bs : list bool)
  : list (Z * Z) :=
  match bs with
  | [] => match open with Some r => [r] | None => [] end
  | true :: r =>
      match open with
      | Some (s, _) => runs (pos + 1) (Some (s, pos)) r
      | None => runs (pos + 1) (Some (pos, pos)) r
      end
  | false :: r =>
      match open with
      | Some run => run :: runs (pos + 1) None r
      | None => runs (pos + 1) None r
      end
  end.

(** A run in range notation. *)
Definition closing (r : Z * Z) : string :=
  if fst r =? snd r then "" else "-" ++ Py.str (snd r).

Definition entry (r : Z * Z) : string := Py.str (fst r) ++ closing r.

Definition canonical (rs : list (Z * Z)) : string :=
  Py.join "," (map entry rs).

(** The canonical range string of a mask. *)
Definition canonical_of_mask (m : string) : string :=
  canonical (runs 0 None (mask_bits m)).

Definition run_members (rs : list (Z * Z)) : list Z :=
  flat_map (fun r => Py.range (fst r) (snd r + 1)) rs.

(** The runs [rs] written one after the other, the first one after [sep]
    and the others after a comma, as the loop of [_mask_to_range] does. *)
Fixpoint render_runs (sep : string) (rs : list (Z * Z)) : string :=
  match rs with
  | [] => ""
  | r :: rest => sep ++ entry r ++ render_runs "," rest
  end.

(** What is still to be written for the runs [rs] when the first of them
    is open, its start being written already. *)
Definition finish (sep : string) (open : option (Z * Z))
  (rs : list (Z * Z)) : string :=
  match open, rs with
  | None, _ => render_runs sep rs
  | Some _, r :: rest => closing r ++ render_runs "," rest
  | Some _, [] => ""
  end.

(** The locals of the loop agree with the open run before position [pos]. *)
Definition consistent (pos : Z) (open : option (Z * Z)) (st : Cpuset.scan)
  : Prop :=
  match open with
  | None => st.(Cpuset.start) = -1
  | Some (s, l) =>
      st.(Cpuset.start) = s /\ st.(Cpuset.last) = l
      /\ st.(Cpuset.bit) = Some l /\ l = pos - 1 /\ 0 <= s <= l
      /\ st.(Cpuset.sep) = ","
  end.

(** The string that the loop returns when it goes on from [st] over the
    bits [bs] at position [pos]. *)
Definition predicted (st : Cpuset.scan) (pos : Z) (open : option (Z * Z))
  (bs : list bool) : string :=
  st.(Cpuset.all_cpus) ++ finish st.(Cpuset.sep) open (runs pos open bs).

Definition next_open (pos : Z) (open : option (Z * Z)) (b : bool)
  : option (Z * Z) :=
  match b, open with
  | true, Some (s, _) => Some (s, pos)
  | true, None => Some (pos, pos)
  | false, _ => None
  end.

(** A run of CPUs from [fst r] to [snd r]. *)
Definition run_ok (r : Z * Z) : Prop := 0 <= fst r <= snd r.

(** The tokens that [_range_to_list] writes for an entry. *)
Definition entry_tokens (e : string) : list string :=
  match Py.split "-" e with
  | [a] => [a]
  | a :: b :: _ => map Py.str (Py.range (dec_value a) (dec_value b + 1))
  | [] => []
  end.

(** The last character of a string. *)
Fixpoint last_char (s : string) : option ascii :=
  match s with
  | EmptyString => None
  | String c EmptyString => Some c
  | String _ r => last_char r
  end.

(** The positions of the set bits of a list of bits that starts at
    position [pos], in ascending order. *)
Fixpoint positions (pos : Z) (bs : list bool) : list Z :=
  match bs with
  | [] => []
  | b :: r => (if b then [pos] else []) ++ positions (pos + 1) r
  end.

(** The number that a string of hexadecimal digits writes. *)
Fixpoint hex_fold (acc : Z) (s : string) : Z :=
  match s with
  | EmptyString => acc
  | String c r =>
      hex_fold (16 * acc + match Py.hex_value c with Some d => d | None => 0 end)
               r
  end.

Definition hex_number (s : string) : Z := hex_fold 0 s.

(** Runs in ascending order with a gap between two of them: the first one
    starts at [lo] or after, and a run that ends at [l] is followed by a run
    that starts at [l + 2] or after. *)
Fixpoint separated (lo : Z) (rs : list (Z * Z)) : Prop :=
  match rs with
  | [] => True
  | r :: rest => lo <= fst r <= snd r /\ separated (snd r + 2) rest
  end.

(** A string without its commas. *)
Fixpoint without_commas (s : string) : string :=
  match s with
  | EmptyString => EmptyString
  | String c r =>
      if Ascii.eqb c "," then without_commas r else String c (without_commas r)
  end.

(** The tokens of the list notation of the CPUs [ps]. *)
Definition list_tokens (ps : list Z) : list string :=
  match ps with
  | [] => [""]
  | _ => map Py.str ps
  end.

(** Membership of a CPU in a list of CPUs. *)
Definition member (q : Z) (ps : list Z) : bool := existsb (Z.eqb q) ps.

(** A bound on CPU numbers under which [1 << n] is an integer of at most
    8 KiB, which the interpreter holds. *)
Definition cpu_bound : Z := 65536.

(** An exception that reports the text given to a method, and not a fault
    in the code of the method. *)
Definition input_error (e : exn) : Prop :=
  e <> IndexError /\ e <> UnboundLocalError.

(** The number of digits that [numeral] allows for. *)
Definition fuel_of (n : Z) : nat := S (Z.to_nat (Z.log2 n)).

(** The sum that [_range_to_mask] formats. *)
Definition bitsum (self : Cpuset.t) : result Z :=
  _list <- Cpuset._range_to_list self ;;
  Cpuset.sum_shifts 0 (Py.split "," _list).

(** ** Strings *)

Section Strings.

Lemma append_nil_r (s : string) : s ++ "" = s.
Proof. induction s as [|c s IH]; simpl; congruence. Qed.

Lemma append_assoc (a b c : string) : (a ++ b) ++ c = a ++ (b ++ c).
Proof. induction a as [|x a IH]; simpl; congruence. Qed.

Lemma chars_app (a b : string) :
  list_ascii_of_string (a ++ b)
  = (list_ascii_of_string a ++ list_ascii_of_string b)%list.
Proof. induction a as [|x a IH]; simpl; congruence. Qed.

Lemma of_chars_app (l1 l2 : list ascii) :
  string_of_list_ascii (l1 ++ l2)%list
  = string_of_list_ascii l1 ++ string_of_list_ascii l2.
Proof. induction l1 as [|x l1 IH]; simpl; congruence. Qed.

Lemma length_chars (s : string) :
  List.length (list_ascii_of_string s) = String.length s.
Proof. induction s as [|c s IH]; simpl; congruence. Qed.

Lemma length_append (a b : string) :
  String.length (a ++ b) = (String.length a + String.length b)%nat.
Proof. induction a as [|x a IH]; simpl; congruence. Qed.

Lemma all_chars_forallb (p : ascii -> bool) (s : string) :
  Py.all_chars p s = forallb p (list_ascii_of_string s).
Proof. induction s as [|c s IH]; simpl; congruence. Qed.

Lemma all_chars_app (p : ascii -> bool) (a b : string) :
  Py.all_chars p (a ++ b) = Py.all_chars p a && Py.all_chars p b.
Proof.
  induction a as [|x a IH]; simpl; [reflexivity|].
  rewrite IH. apply andb_assoc.
Qed.

Lemma all_chars_of_chars (p : ascii -> bool) (l : list ascii) :
  Py.all_chars p (string_of_list_ascii l) = forallb p l.
Proof. induction l as [|x l IH]; simpl; congruence. Qed.

Lemma all_chars_impl (p q : ascii -> bool) (s : string) :
  (forall c, p c = true -> q c = true) ->
  Py.all_chars p s = true -> Py.all_chars q s = true.
Proof.
  intros Hpq. induction s as [|c s IH]; simpl; [reflexivity|].
  intros H. apply andb_true_iff in H as [Hc Hs].
  apply andb_true_iff; split; auto.
Qed.

Lemma contains_app (c : ascii) (a b : string) :
  Py.contains c (a ++ b) = Py.contains c a || Py.contains c b.
Proof.
  induction a as [|x a IH]; simpl; [reflexivity|].
  rewrite IH. apply orb_assoc.
Qed.

(** A character that satisfies [p] everywhere in [s] is absent from [s]
    when it does not satisfy [p]. *)
Lemma all_chars_contains (p : ascii -> bool) (c : ascii) (s : string) :
  Py.all_chars p s = true -> p c = false -> Py.contains c s = false.
Proof.
  intros Hs Hc. induction s as [|x s IH]; simpl in *; [reflexivity|].
  apply andb_true_iff in Hs as [Hx Hs].
  rewrite (IH Hs), orb_false_r.
  destruct (Ascii.eqb_spec x c); [congruence | reflexivity].
Qed.


(** [split] never returns the empty list. *)
Lemma split_cons (sep : ascii) (s : string) :
  exists h t, Py.split sep s = h :: t.
Proof.
  induction s as [|c s [h [t IH]]]; simpl; [eauto|].
  destruct (Ascii.eqb c sep); [eauto|]. rewrite IH. eauto.
Qed.

Lemma split_absent (sep : ascii) (s : string) :
  Py.contains sep s = false -> Py.split sep s = [s].
Proof.
  induction s as [|c s IH]; simpl; [reflexivity|].
  intros H. apply orb_false_iff in H as [Hc Hs].
  rewrite Hc, (IH Hs). reflexivity.
Qed.

Lemma split_app (sep : ascii) (a b : string) :
  Py.contains sep a = false ->
  Py.split sep (a ++ String sep b) = a :: Py.split sep b.
Proof.
  induction a as [|c a IH]; simpl.
  - intros _. rewrite Ascii.eqb_refl. reflexivity.
  - intros H. apply orb_false_iff in H as [Hc Ha].
    rewrite Hc, (IH Ha). reflexivity.
Qed.

(** Splitting what [join] built from tokens without the separator gives
    the tokens back. *)
Lemma split_join (sep : ascii) (l : list string) :
  l <> [] ->
  Forall (fun x => Py.contains sep x = false) l ->
  Py.split sep (Py.join (String sep "") l) = l.
Proof.
  induction l as [|x l IH]; [congruence|].
  intros _ H. inversion H as [|? ? Hx Hl]; subst.
  destruct l as [|y l].
  - simpl. apply split_absent; assumption.
  - change (Py.join (String sep "") (x :: y :: l))
      with (x ++ String sep (Py.join (String sep "") (y :: l))).
    rewrite split_app by assumption.
    rewrite IH; [reflexivity | discriminate | assumption].
Qed.

(** Joining the pieces of a split gives the string back. *)
Lemma join_split (sep : ascii) (s : string) :
  Py.join (String sep "") (Py.split sep s) = s.
Proof.
  induction s as [|c s IH]; simpl; [reflexivity|].
  destruct (split_cons sep s) as [h [t E]].
  destruct (Ascii.eqb_spec c sep) as [->|Hne]; rewrite E.
  - change (String sep (Py.join (String sep "") (h :: t)) = String sep s).
    rewrite <- E, IH. reflexivity.
  - rewrite E in IH. destruct t as [|y t].
    + simpl in *. congruence.
    + change (String c (h ++ String sep (Py.join (String sep "") (y :: t)))
              = String c s).
      f_equal. exact IH.
Qed.

Lemma split_no_sep (sep : ascii) (s : string) :
  Forall (fun x => Py.contains sep x = false) (Py.split sep s).
Proof.
  induction s as [|c s IH]; simpl.
  - constructor; [reflexivity | constructor].
  - destruct (Ascii.eqb_spec c sep) as [->|Hne].
    + constructor; [reflexivity | assumption].
    + destruct (Py.split sep s) as [|h t]; simpl.
      * constructor; [|constructor]. simpl.
        destruct (Ascii.eqb_spec c sep); [congruence | reflexivity].
      * inversion IH; subst. constructor; [|assumption]. simpl.
        destruct (Ascii.eqb_spec c sep); [congruence | assumption].
Qed.

(** Stripping leaves a string alone when neither end is white space. *)
Lemma rstrip_all (sp : ascii -> bool) (s : string) :
  Py.all_chars (fun c => negb (sp c)) s = true -> Py.rstrip_with sp s = s.
Proof.
  induction s as [|c s IH]; simpl; [reflexivity|].
  intros H. apply andb_true_iff in H as [Hc Hs].
  rewrite (IH Hs). destruct s; [|reflexivity].
  apply negb_true_iff in Hc. rewrite Hc. reflexivity.
Qed.

Lemma lstrip_head (sp : ascii -> bool) (c : ascii) (s : string) :
  sp c = false -> Py.lstrip_with sp (String c s) = String c s.
Proof. intros H. simpl. rewrite H. reflexivity. Qed.




Lemma reversed_chars (s : string) :
  list_ascii_of_string (Py.reversed s) = rev (list_ascii_of_string s).
Proof. unfold Py.reversed. apply list_ascii_of_string_of_list_ascii. Qed.

End Strings.

(** ** Numerals *)

Section Numerals.

Ltac digit_cases d :=
  let H := fresh in
  assert (H : d = 0 \/ d = 1 \/ d = 2 \/ d = 3 \/ d = 4 \/ d = 5 \/ d = 6
              \/ d = 7 \/ d = 8 \/ d = 9 \/ d = 10 \/ d = 11 \/ d = 12
              \/ d = 13 \/ d = 14 \/ d = 15) by lia;
  repeat (destruct H as [H|H]; [subst d|]); [..|subst d].

Lemma dec_digit_char (d : Z) :
  0 <= d < 10 ->
  Py.is_dec (Py.digit_char d) = true /\ Py.ord (Py.digit_char d) - 48 = d.
Proof. intros H. digit_cases d; try lia; split; reflexivity. Qed.

Lemma hex_digit_char (d : Z) :
  0 <= d < 16 -> Py.hex_value (Py.digit_char d) = Some d.
Proof. intros H. digit_cases d; reflexivity. Qed.

Lemma digits_lsb_value (base : Z) (fuel : nat) :
  2 <= base -> forall n,
  0 <= n < 2 ^ Z.of_nat fuel ->
  from_digits base (Py.digits_lsb base fuel n) = n.
Proof.
  intros Hb. induction fuel as [|f IH]; intros n Hn.
  - simpl in *. lia.
  - cbn [Py.digits_lsb]. destruct (Z.eqb_spec n 0) as [->|Hz]; [reflexivity|].
    cbn [from_digits fold_right]. fold (from_digits base (Py.digits_lsb base f (n / base))).
    rewrite IH.
    + pose proof (Z.div_mod n base). lia.
    + rewrite Nat2Z.inj_succ, Z.pow_succ_r in Hn by lia.
      split; [apply Z.div_pos; lia|].
      apply Z.div_lt_upper_bound; [lia|]. nia.
Qed.

Lemma digits_lsb_range (base : Z) (fuel : nat) :
  0 < base -> forall n,
  Forall (fun d => 0 <= d < base) (Py.digits_lsb base fuel n).
Proof.
  intros Hb. induction fuel as [|f IH]; intros n; simpl; [constructor|].
  destruct (n =? 0); constructor; [|apply IH].
  apply Z.mod_pos_bound; assumption.
Qed.

Lemma digits_lsb_length (base : Z) (fuel : nat) (k : nat) :
  2 <= base -> forall n,
  0 <= n < base ^ Z.of_nat k ->
  (List.length (Py.digits_lsb base fuel n) <= k)%nat.
Proof.
  intros Hb. revert fuel. induction k as [|k IH]; intros fuel n Hn.
  - simpl in Hn. assert (n = 0) by lia. subst.
    destruct fuel; simpl; lia.
  - destruct fuel as [|f]; simpl; [lia|].
    destruct (n =? 0); simpl; [lia|].
    apply le_n_S, IH.
    rewrite Nat2Z.inj_succ, Z.pow_succ_r in Hn by lia.
    split; [apply Z.div_pos; lia|].
    apply Z.div_lt_upper_bound; lia.
Qed.

Lemma digits_lsb_nonempty (base : Z) (fuel : nat) (n : Z) :
  n <> 0 -> Py.digits_lsb base (S fuel) n <> [].
Proof.
  intros Hn. simpl. destruct (Z.eqb_spec n 0); [contradiction | discriminate].
Qed.

Lemma fuel_enough (n : Z) : 0 < n -> 0 <= n < 2 ^ Z.of_nat (fuel_of n).
Proof.
  intros Hn. unfold fuel_of.
  rewrite Nat2Z.inj_succ, Z2Nat.id by apply Z.log2_nonneg.
  pose proof (Z.log2_spec n Hn). lia.
Qed.

Lemma numeral_pos (base n : Z) :
  0 < n ->
  Py.numeral base n
  = string_of_list_ascii
      (rev (map Py.digit_char (Py.digits_lsb base (fuel_of n) n))).
Proof.
  intros Hn. unfold Py.numeral.
  destruct (Z.eqb_spec n 0); [lia | reflexivity].
Qed.

Lemma dec_fold_app (a b : string) (acc : Z) :
  dec_fold acc (a ++ b) = dec_fold (dec_fold acc a) b.
Proof. revert acc. induction a as [|c a IH]; simpl; intros; auto. Qed.

Lemma dec_fold_digits (ds : list Z) :
  Forall (fun d => 0 <= d < 10) ds ->
  dec_fold 0 (string_of_list_ascii (rev (map Py.digit_char ds)))
  = from_digits 10 ds.
Proof.
  induction 1 as [|d ds Hd Hds IH]; [reflexivity|].
  simpl. rewrite of_chars_app, dec_fold_app, IH. simpl.
  destruct (dec_digit_char d Hd) as [_ ->]. lia.
Qed.

Lemma all_dec_digits (ds : list Z) :
  Forall (fun d => 0 <= d < 10) ds ->
  Py.all_chars Py.is_dec
    (string_of_list_ascii (rev (map Py.digit_char ds))) = true.
Proof.
  intros H. rewrite all_chars_of_chars. apply forallb_forall.
  intros c Hc. apply in_rev, in_map_iff in Hc as [d [<- Hd]].
  rewrite Forall_forall in H. apply dec_digit_char; auto.
Qed.

Lemma of_chars_nonempty (l : list ascii) :
  l <> [] -> string_of_list_ascii l <> "".
Proof. destruct l; [congruence | discriminate]. Qed.

Lemma rev_map_nonempty {A B : Type} (f : A -> B) (l : list A) :
  l <> [] -> rev (map f l) <> [].
Proof.
  destruct l; [congruence|]. simpl. intros _ H.
  apply app_eq_nil in H as [_ H]. discriminate.
Qed.

Lemma is_number_all (s : string) :
  is_number s = true <-> s <> "" /\ Py.all_chars Py.is_dec s = true.
Proof.
  destruct s; simpl; split; try intros [? ?]; try discriminate;
    try congruence; intros; split; [discriminate | assumption].
Qed.

(** [str(n)] of a non-negative [n] is a string of decimal digits whose
    value is [n]. *)
Lemma str_is_number (n : Z) : 0 <= n -> is_number (Py.str n) = true.
Proof.
  intros Hn. unfold Py.str. destruct (Z.ltb_spec n 0); [lia|].
  destruct (Z.eq_dec n 0) as [->|Hz]; [reflexivity|].
  rewrite numeral_pos by lia. apply is_number_all. split.
  - apply of_chars_nonempty, rev_map_nonempty, digits_lsb_nonempty. assumption.
  - apply all_dec_digits, digits_lsb_range. lia.
Qed.

Lemma dec_value_str (n : Z) : 0 <= n -> dec_value (Py.str n) = n.
Proof.
  intros Hn. unfold Py.str, dec_value. destruct (Z.ltb_spec n 0); [lia|].
  destruct (Z.eq_dec n 0) as [->|Hz]; [reflexivity|].
  rewrite numeral_pos by lia.
  rewrite dec_fold_digits by (apply digits_lsb_range; lia).
  apply digits_lsb_value; [lia|]. apply fuel_enough. lia.
Qed.

Lemma int_digits_dec (s : string) :
  Py.all_chars Py.is_dec s = true -> s <> "" ->
  forall acc prev, Py.int_digits acc prev s = Some (dec_fold acc s).
Proof.
  induction s as [|c s IH]; [congruence|].
  intros H _ acc prev. simpl in *.
  apply andb_true_iff in H as [Hc Hs]. rewrite Hc.
  destruct s as [|c' s]; [reflexivity|].
  apply IH; [assumption | discriminate].
Qed.

Lemma dec_not_space (c : ascii) :
  Py.is_dec c = true ->
  Py.is_int_space c = false /\ Py.is_space c = false
  /\ Ascii.eqb c "+" = false /\ Ascii.eqb c "-" = false
  /\ Ascii.eqb c "," = false /\ Py.is_digit_char c = true
  /\ Py.is_hex c = true.
Proof.
  intros H. destruct c as [[] [] [] [] [] [] [] []];
    vm_compute in H; try discriminate H; repeat split; reflexivity.
Qed.

(** [int()] reads a string of decimal digits as its value. *)
Lemma int_number (s : string) :
  is_number s = true -> Py.int s = Ok (dec_value s).
Proof.
  intros H. apply is_number_all in H as [Hne Hall].
  destruct s as [|c s]; [congruence|].
  assert (Hc : Py.is_dec c = true)
    by (simpl in Hall; apply andb_true_iff in Hall; tauto).
  destruct (dec_not_space c Hc) as (Hsp & _ & Hplus & Hminus & _).
  unfold Py.int. rewrite lstrip_head by assumption.
  rewrite rstrip_all.
  - destruct c as [b0 b1 b2 b3 b4 b5 b6 b7].
    assert (E : Py.int_digits 0 false (String (Ascii b0 b1 b2 b3 b4 b5 b6 b7) s)
                = Some (dec_value (String (Ascii b0 b1 b2 b3 b4 b5 b6 b7) s)))
      by (apply int_digits_dec; [assumption | discriminate]).
    destruct b0, b1, b2, b3, b4, b5, b6, b7;
      try discriminate Hplus; try discriminate Hminus;
      cbv iota beta; rewrite E; reflexivity.
  - eapply all_chars_impl; [|exact Hall].
    intros x Hx. destruct (dec_not_space x Hx) as [-> _]. reflexivity.
Qed.

Lemma int_str (n : Z) : 0 <= n -> Py.int (Py.str n) = Ok n.
Proof.
  intros Hn. rewrite int_number by (apply str_is_number; assumption).
  rewrite dec_value_str by assumption. reflexivity.
Qed.

Lemma number_absent (c : ascii) (s : string) :
  is_number s = true -> Py.is_dec c = false -> Py.contains c s = false.
Proof.
  intros H Hc. apply is_number_all in H as [_ H].
  eapply all_chars_contains; eassumption.
Qed.

Lemma number_isdigit (s : string) :
  is_number s = true -> Py.isdigit s = true.
Proof.
  intros H. apply is_number_all in H as [Hne H].
  destruct s; [congruence|]. unfold Py.isdigit.
  eapply all_chars_impl; [|exact H].
  intros x Hx. apply dec_not_space in Hx. tauto.
Qed.

End Numerals.

(** ** The loop of [_mask_to_range] *)

Section Scan.

Lemma runs_open_head (bs : list bool) :
  forall pos s l, exists l' rest, runs pos (Some (s, l)) bs = (s, l') :: rest.
Proof.
  induction bs as [|b bs IH]; intros pos s l; simpl; [eauto|].
  destruct b; [apply IH | eauto].
Qed.

Lemma runs_step (pos : Z) (open : option (Z * Z)) (b : bool) (bs : list bool) :
  runs pos open (b :: bs)
  = match b, open with
    | false, Some run => run :: runs (pos + 1) None bs
    | _, _ => runs (pos + 1) (next_open pos open b) bs
    end.
Proof. destruct b, open as [[s l]|]; reflexivity. Qed.

(** One turn of the inner loop keeps the locals consistent and does not
    change the string that will be returned. *)
Lemma scan_bit_spec (char : ascii) (d count i pos pos' : Z)
  (open : option (Z * Z)) (st : Cpuset.scan) :
  Py.hex_value char = Some d ->
  pos = i + count -> pos' = pos + 1 -> 0 <= pos ->
  consistent pos open st ->
  let b := negb (Z.land (Z.shiftl 1 i) d =? 0) in
  exists st',
    Cpuset.scan_bit char count st i = Ok st'
    /\ consistent pos' (next_open pos open b) st'
    /\ forall bs, predicted st' pos' (next_open pos open b) bs
                  = predicted st pos open (b :: bs).
Proof.
  intros Hd Hpos Hpos' Hnn Hc b.
  unfold Cpuset.scan_bit, Py.int16_char. rewrite Hd. cbn [bind].
  fold b. rewrite <- Hpos. subst pos'.
  destruct b, open as [[s l]|]; cbn [consistent next_open] in *.
  - destruct Hc as (Hs & Hl & Hb & Hlp & Hsl & Hsep).
    rewrite Hs, Hl.
    destruct (Z.geb_spec s 0); [|lia].
    destruct (Z.eqb_spec pos (l + 1)); [|lia].
    eexists; split; [reflexivity|]. split.
    + cbn. repeat split; try reflexivity; try assumption; lia.
    + intros bs. unfold predicted. cbn. reflexivity.
  - rewrite Hc. cbn.
    eexists; split; [reflexivity|]. split.
    + cbn. repeat split; reflexivity || lia.
    + intros bs. unfold predicted. cbn.
      destruct (runs_open_head bs (pos + 1) pos pos) as [l' [rest ->]].
      cbn. unfold entry. cbn. rewrite !append_assoc. reflexivity.
  - destruct Hc as (Hs & Hl & Hb & Hlp & Hsl & Hsep).
    rewrite Hs, Hl, Hb.
    destruct (Z.geb_spec s 0); [|lia].
    destruct (Z.eqb_spec s l) as [Heq|Hne]; cbn.
    + eexists; split; [reflexivity|]. split; [reflexivity|].
      intros bs. unfold predicted. cbn. unfold closing. cbn.
      destruct (Z.eqb_spec s l); [|contradiction].
      rewrite Hsep. reflexivity.
    + eexists; split; [reflexivity|]. split; [reflexivity|].
      intros bs. unfold predicted. cbn. unfold closing. cbn.
      destruct (Z.eqb_spec s l); [contradiction|].
      rewrite Hsep, !append_assoc. reflexivity.
  - rewrite Hc. cbn.
    eexists; split; [reflexivity|]. split; [reflexivity|].
    intros bs. unfold predicted. cbn. reflexivity.
Qed.

Lemma digit_bits_eq (d : Z) :
  digit_bits d
  = [negb (Z.land (Z.shiftl 1 0) d =? 0); negb (Z.land (Z.shiftl 1 1) d =? 0);
     negb (Z.land (Z.shiftl 1 2) d =? 0); negb (Z.land (Z.shiftl 1 3) d =? 0)].
Proof. reflexivity. Qed.

(** The inner loop over the four bits of a hexadecimal digit. *)
Lemma scan_bits_spec (char : ascii) (d count : Z) (open : option (Z * Z))
  (st : Cpuset.scan) :
  Py.hex_value char = Some d -> 0 <= count ->
  consistent count open st ->
  exists st' open',
    Cpuset.scan_bits char count st (Py.range 0 4) = Ok st'
    /\ consistent (count + 4) open' st'
    /\ forall bs, predicted st' (count + 4) open' bs
                  = predicted st count open (digit_bits d ++ bs)%list.
Proof.
  intros Hd Hnn H0.
  change (Py.range 0 4) with [0; 1; 2; 3].
  destruct (scan_bit_spec char d count 0 count (count + 1) open st
              Hd ltac:(lia) ltac:(lia) ltac:(lia) H0) as (st1 & E1 & H1 & P1).
  destruct (scan_bit_spec char d count 1 (count + 1) (count + 2) _ st1
              Hd ltac:(lia) ltac:(lia) ltac:(lia) H1) as (st2 & E2 & H2 & P2).
  destruct (scan_bit_spec char d count 2 (count + 2) (count + 3) _ st2
              Hd ltac:(lia) ltac:(lia) ltac:(lia) H2) as (st3 & E3 & H3 & P3).
  destruct (scan_bit_spec char d count 3 (count + 3) (count + 4) _ st3
              Hd ltac:(lia) ltac:(lia) ltac:(lia) H3) as (st4 & E4 & H4 & P4).
  exists st4. eexists. split; [|split; [exact H4|]].
  - cbn [Cpuset.scan_bits]. rewrite E1. cbn [bind]. rewrite E2. cbn [bind].
    rewrite E3. cbn [bind]. rewrite E4. reflexivity.
  - intros bs. rewrite digit_bits_eq. cbn [app].
    rewrite P4, P3, P2, P1. reflexivity.
Qed.

Lemma is_hex_value (c : ascii) :
  Py.is_hex c = true -> exists d, Py.hex_value c = Some d.
Proof. unfold Py.is_hex. destruct (Py.hex_value c); [eauto | discriminate]. Qed.

(** The outer loop over hexadecimal digits. *)
Lemma scan_chars_spec (cs : list ascii) :
  forallb Py.is_hex cs = true ->
  forall count open st,
  0 <= count -> consistent count open st ->
  exists st' open',
    Cpuset.scan_chars cs count st = Ok st'
    /\ consistent (count + 4 * Z.of_nat (List.length cs)) open' st'
    /\ forall bs,
         predicted st' (count + 4 * Z.of_nat (List.length cs)) open' bs
         = predicted st count open (flat_map char_bits cs ++ bs)%list.
Proof.
  induction cs as [|c cs IH]; intros Hhex count open st Hnn Hc.
  - exists st, open. cbn [List.length Z.of_nat].
    replace (count + 4 * 0) with count by lia. auto.
  - cbn [forallb] in Hhex. apply andb_true_iff in Hhex as [Hh Hcs].
    destruct (is_hex_value c Hh) as [d Hd].
    destruct (scan_bits_spec c d count open st Hd Hnn Hc)
      as (st1 & open1 & E1 & H1 & P1).
    destruct (IH Hcs (count + 4) open1 st1) as (st2 & open2 & E2 & H2 & P2);
      [lia | assumption |].
    exists st2, open2.
    replace (count + 4 * Z.of_nat (List.length (c :: cs)))
      with (count + 4 + 4 * Z.of_nat (List.length cs))
      by (cbn [List.length]; lia).
    split; [|split; [exact H2|]].
    + cbn [Cpuset.scan_chars]. rewrite E1. exact E2.
    + intros bs. rewrite P2, P1. cbn [flat_map]. unfold char_bits at 2.
      rewrite Hd, app_assoc. reflexivity.
Qed.

Lemma scan_chars_app (a b : list ascii) :
  forall count st,
  Cpuset.scan_chars (a ++ b)%list count st
  = (st' <- Cpuset.scan_chars a count st ;;
     Cpuset.scan_chars b (count + 4 * Z.of_nat (List.length a)) st').
Proof.
  induction a as [|c a IH]; intros count st.
  - cbn. f_equal. lia.
  - cbn [app Cpuset.scan_chars].
    destruct (Cpuset.scan_bits c count st (Py.range 0 4)) as [st1|e];
      cbn [bind]; [|reflexivity].
    rewrite IH. cbn [List.length].
    replace (count + 4 + 4 * Z.of_nat (List.length a))
      with (count + 4 * Z.of_nat (S (List.length a))) by lia.
    reflexivity.
Qed.

Lemma render_runs_canonical (rs : list (Z * Z)) :
  render_runs "" rs = canonical rs
  /\ render_runs "," rs
     = match rs with [] => "" | _ => "," ++ canonical rs end.
Proof.
  induction rs as [|r rs [IH1 IH2]]; [split; reflexivity|].
  unfold canonical in *. cbn [render_runs map].
  rewrite IH2. destruct rs as [|r' rs].
  - cbn. rewrite !append_nil_r. split; reflexivity.
  - split; reflexivity.
Qed.

Lemma consistent_init : consistent 0 None Cpuset.scan_init.
Proof. reflexivity. Qed.

(** A mask made of hexadecimal digits is converted to the canonical range
    string of its bits. *)
Lemma mask_to_range_hex (m : string) :
  is_hex_string m = true ->
  Cpuset._mask_to_range m = Ok (canonical_of_mask m).
Proof.
  intros Hm. unfold Cpuset._mask_to_range.
  rewrite reversed_chars.
  destruct (scan_chars_spec (rev (list_ascii_of_string m))) with
    (count := 0) (open := @None (Z * Z)) (st := Cpuset.scan_init)
    as (st & open & E & Hc & P).
  - unfold is_hex_string in Hm. rewrite all_chars_forallb in Hm.
    rewrite forallb_forall in *. intros c Hin. apply Hm, in_rev, Hin.
  - lia.
  - apply consistent_init.
  - rewrite E. cbn [bind]. specialize (P []).
    rewrite app_nil_r in P. fold (mask_bits m) in P.
    unfold canonical_of_mask.
    destruct (render_runs_canonical (runs 0 None (mask_bits m))) as [<- _].
    change (render_runs "" (runs 0 None (mask_bits m)))
      with (predicted Cpuset.scan_init 0 None (mask_bits m)).
    rewrite <- P. unfold predicted.
    destruct open as [[s l]|]; cbn [consistent] in Hc.
    + destruct Hc as (Hs & Hl & _ & _ & Hsl & _).
      rewrite Hs, Hl. destruct (Z.geb_spec s 0); [|lia].
      cbn [runs finish render_runs]. unfold closing. cbn [fst snd].
      destruct (Z.eqb_spec s l); cbn [negb];
        rewrite ?append_nil_r; reflexivity.
    + rewrite Hc. cbn. rewrite append_nil_r. reflexivity.
Qed.

Lemma first_non_hex (cs : list ascii) :
  forallb Py.is_hex cs = false ->
  exists pre c post,
    cs = (pre ++ c :: post)%list /\ forallb Py.is_hex pre = true
    /\ Py.is_hex c = false.
Proof.
  induction cs as [|x cs IH]; [discriminate|].
  cbn [forallb]. destruct (Py.is_hex x) eqn:Hx.
  - intros H. destruct (IH H) as (pre & c & post & -> & Hpre & Hc).
    exists (x :: pre), c, post. cbn. rewrite Hx, Hpre. auto.
  - intros _. exists [], x, cs. auto.
Qed.

(** A mask with a character that is not a hexadecimal digit: [ValueError]. *)
Lemma mask_to_range_not_hex (m : string) :
  is_hex_string m = false ->
  Cpuset._mask_to_range m = Raise ValueError.
Proof.
  intros Hm. unfold Cpuset._mask_to_range. rewrite reversed_chars.
  assert (H : forallb Py.is_hex (rev (list_ascii_of_string m)) = false).
  { unfold is_hex_string in Hm. rewrite all_chars_forallb in Hm.
    destruct (forallb Py.is_hex (rev (list_ascii_of_string m))) eqn:E;
      [|reflexivity].
    rewrite <- Hm. symmetry. apply forallb_forall. intros c Hc.
    rewrite forallb_forall in E. apply E. rewrite <- in_rev. exact Hc. }
  destruct (first_non_hex _ H) as (pre & c & post & -> & Hpre & Hc).
  rewrite scan_chars_app.
  destruct (scan_chars_spec pre Hpre 0 None Cpuset.scan_init)
    as (st & open & E & _ & _); [lia | apply consistent_init |].
  rewrite E. cbn [bind Cpuset.scan_chars].
  change (Py.range 0 4) with [0; 1; 2; 3]. cbn [Cpuset.scan_bits].
  unfold Cpuset.scan_bit at 1, Py.int16_char.
  unfold Py.is_hex in Hc. destruct (Py.hex_value c); [discriminate|].
  reflexivity.
Qed.

(** [_mask_to_range] either converts a hexadecimal mask or raises
    [ValueError]. *)
Lemma mask_to_range_cases (m : string) :
  Cpuset._mask_to_range m
  = if is_hex_string m then Ok (canonical_of_mask m) else Raise ValueError.
Proof.
  destruct (is_hex_string m) eqn:E;
    [apply mask_to_range_hex | apply mask_to_range_not_hex]; assumption.
Qed.

End Scan.

(** ** Runs and their members *)

Section Runs.

Lemma range_snoc (lo hi : Z) :
  lo <= hi -> Py.range lo (hi + 1) = (Py.range lo hi ++ [hi])%list.
Proof.
  intros H. unfold Py.range.
  replace (Z.to_nat (hi + 1 - lo)) with (S (Z.to_nat (hi - lo))) by lia.
  rewrite seq_S, map_app. cbn [map plus]. do 2 f_equal. lia.
Qed.

Lemma range_empty (lo : Z) : Py.range lo lo = [].
Proof. unfold Py.range. rewrite Z.sub_diag. reflexivity. Qed.

Lemma range_one (lo : Z) : Py.range lo (lo + 1) = [lo].
Proof. rewrite range_snoc, range_empty by lia. reflexivity. Qed.

Lemma range_bounds (lo hi x : Z) : In x (Py.range lo hi) -> lo <= x < hi.
Proof.
  unfold Py.range. intros H. apply in_map_iff in H as [k [<- Hk]].
  apply in_seq in Hk. lia.
Qed.

Lemma range_nonempty (lo hi : Z) : lo < hi -> Py.range lo hi <> [].
Proof.
  intros H. unfold Py.range.
  destruct (Z.to_nat (hi - lo)) eqn:E; [lia | discriminate].
Qed.

Lemma sum2_app (a b : list Z) : sum2 (a ++ b) = sum2 a + sum2 b.
Proof. induction a as [|x a IH]; simpl; [reflexivity|]. rewrite IH. lia. Qed.

Lemma bval_nonneg (bs : list bool) : 0 <= bval bs.
Proof. induction bs as [|[] bs IH]; cbn [bval Z.b2z]; lia. Qed.

Lemma runs_ok (bs : list bool) :
  forall pos open,
  0 <= pos ->
  (forall r, open = Some r -> run_ok r /\ snd r < pos) ->
  Forall run_ok (runs pos open bs).
Proof.
  induction bs as [|b bs IH]; intros pos open Hpos Hopen.
  - destruct open as [r|]; cbn; [|constructor].
    constructor; [apply Hopen; reflexivity | constructor].
  - rewrite runs_step. destruct b, open as [[s l]|]; cbn [next_open].
    + apply IH; [lia|]. intros r [= <-].
      destruct (Hopen _ eq_refl) as [[H1 H2] H3]. unfold run_ok. cbn in *. lia.
    + apply IH; [lia|]. intros r [= <-]. unfold run_ok. cbn. lia.
    + constructor; [apply Hopen; reflexivity|].
      apply IH; [lia | discriminate].
    + apply IH; [lia | discriminate].
Qed.

(** The members of the runs are the positions of the set bits: they add up
    to the value of the bits. *)
Lemma runs_sum (bs : list bool) :
  forall pos open,
  0 <= pos ->
  (forall r, open = Some r -> run_ok r /\ snd r = pos - 1) ->
  sum2 (run_members (runs pos open bs))
  = sum2 (run_members (runs pos open [])) + 2 ^ pos * bval bs.
Proof.
  induction bs as [|b bs IH]; intros pos open Hpos Hopen.
  - cbn [bval]. lia.
  - rewrite runs_step. cbn [bval].
    assert (Hpow : 2 ^ (pos + 1) = 2 * 2 ^ pos)
      by (rewrite Z.pow_add_r by lia; lia).
    destruct b, open as [[s l]|]; cbn [next_open Z.b2z].
    + destruct (Hopen _ eq_refl) as [[H1 H2] H3]. cbn [fst snd] in *.
      rewrite IH; [|lia|].
      * cbn [runs run_members flat_map fst snd]. rewrite !app_nil_r.
        rewrite (range_snoc s pos) by lia. rewrite sum2_app.
        replace (l + 1) with pos by lia. cbn [sum2 fold_right]. lia.
      * intros r [= <-]. unfold run_ok. cbn. lia.
    + rewrite IH; [|lia|].
      * cbn [runs run_members flat_map fst snd app].
        rewrite range_one. cbn [sum2 fold_right app]. lia.
      * intros r [= <-]. unfold run_ok. cbn. lia.
    + cbn [run_members flat_map]. rewrite !sum2_app.
      fold (run_members (runs (pos + 1) None bs)).
      rewrite IH; [|lia|discriminate].
      cbn [runs run_members flat_map app]. rewrite app_nil_r.
      cbn [sum2 fold_right]. lia.
    + rewrite IH; [|lia|discriminate].
      cbn [runs run_members flat_map sum2 fold_right]. rewrite Hpow. lia.
Qed.

Lemma runs_zeros (bs : list bool) :
  bval bs = 0 -> forall pos open, runs pos open bs = runs pos open [].
Proof.
  induction bs as [|b bs IH]; intros H pos open; [reflexivity|].
  cbn [bval] in H. pose proof (bval_nonneg bs).
  destruct b; cbn [Z.b2z] in H; [lia|].
  rewrite runs_step.
  destruct open as [r|]; cbn [next_open]; rewrite IH by lia; reflexivity.
Qed.

(** The runs depend on the value of the bits only: leading zero digits of
    a mask do not matter. *)
Lemma runs_bval (bs1 : list bool) :
  forall bs2 pos open,
  bval bs1 = bval bs2 -> runs pos open bs1 = runs pos open bs2.
Proof.
  induction bs1 as [|b1 bs1 IH]; intros bs2 pos open H.
  - symmetry. apply runs_zeros. cbn in H. lia.
  - destruct bs2 as [|b2 bs2].
    + apply runs_zeros. exact H.
    + cbn [bval] in H.
      assert (b1 = b2 /\ bval bs1 = bval bs2) as [-> Hv]
        by (destruct b1, b2; cbn [Z.b2z] in H; split; congruence || lia).
      rewrite !runs_step, !(IH bs2) by assumption. reflexivity.
Qed.

Lemma runs_nil_bval (bs : list bool) :
  runs 0 None bs = [] <-> bval bs = 0.
Proof.
  split.
  - intros H. pose proof (runs_sum bs 0 None ltac:(lia)) as E.
    rewrite H in E. cbn in E. rewrite E by discriminate.
    destruct (bval bs); reflexivity.
  - intros H. rewrite runs_zeros by assumption. reflexivity.
Qed.

Lemma bval_app_digit (d : Z) (bs : list bool) :
  0 <= d < 16 -> bval (digit_bits d ++ bs) = d + 16 * bval bs.
Proof.
  intros H. rewrite digit_bits_eq.
  assert (Hd : d = 0 \/ d = 1 \/ d = 2 \/ d = 3 \/ d = 4 \/ d = 5 \/ d = 6
              \/ d = 7 \/ d = 8 \/ d = 9 \/ d = 10 \/ d = 11 \/ d = 12
              \/ d = 13 \/ d = 14 \/ d = 15) by lia.
  assert (Hk : forall a b c e,
             bval ([a; b; c; e] ++ bs) = bval [a; b; c; e] + 16 * bval bs)
    by (intros; cbn [app bval]; lia).
  rewrite Hk.
  repeat (destruct Hd as [Hd|Hd];
          [subst d; vm_compute (bval [_; _; _; _]); reflexivity|]).
  subst d; vm_compute (bval [_; _; _; _]); reflexivity.
Qed.

Lemma bval_digits (ds : list Z) :
  Forall (fun d => 0 <= d < 16) ds ->
  bval (flat_map char_bits (map Py.digit_char ds)) = from_digits 16 ds.
Proof.
  induction 1 as [|d ds Hd Hds IH]; [reflexivity|].
  cbn [map flat_map from_digits fold_right]. unfold char_bits at 1.
  rewrite hex_digit_char, bval_app_digit, IH by assumption. reflexivity.
Qed.

(** [format(v, 'x')] is a hexadecimal mask whose bits have the value [v]. *)
Lemma format_x_hex (v : Z) : 0 <= v -> is_hex_string (Py.format_x v) = true.
Proof.
  intros Hv. unfold Py.format_x. destruct (Z.ltb_spec v 0); [lia|].
  destruct (Z.eq_dec v 0) as [->|Hz]; [reflexivity|].
  rewrite numeral_pos by lia. unfold is_hex_string.
  rewrite all_chars_of_chars. apply forallb_forall. intros c Hc.
  apply in_rev, in_map_iff in Hc as [d [<- Hd]].
  pose proof (digits_lsb_range 16 (fuel_of v) ltac:(lia) v) as Hr.
  rewrite Forall_forall in Hr. unfold Py.is_hex.
  rewrite hex_digit_char by (apply Hr; assumption). reflexivity.
Qed.

Lemma format_x_bval (v : Z) : 0 <= v -> bval (mask_bits (Py.format_x v)) = v.
Proof.
  intros Hv. unfold Py.format_x. destruct (Z.ltb_spec v 0); [lia|].
  destruct (Z.eq_dec v 0) as [->|Hz]; [reflexivity|].
  rewrite numeral_pos by lia. unfold mask_bits.
  rewrite list_ascii_of_string_of_list_ascii, rev_involutive.
  rewrite bval_digits by (apply digits_lsb_range; lia).
  apply digits_lsb_value; [lia|]. apply fuel_enough. lia.
Qed.

End Runs.

(** ** Reading range notation back *)

Section Parsing.

Lemma split_singleton (sep : ascii) (s a : string) :
  Py.split sep s = [a] -> Py.contains sep s = false /\ a = s.
Proof.
  revert a. induction s as [|c s IH]; intros a; simpl.
  - intros [= <-]. auto.
  - destruct (split_cons sep s) as [h [t E]]. rewrite E in *.
    destruct (Ascii.eqb c sep); [discriminate|].
    intros [= <- ->]. destruct (IH h eq_refl) as [-> ->]. auto.
Qed.

Lemma split_two (sep : ascii) (s a b : string) (t : list string) :
  Py.split sep s = a :: b :: t -> Py.contains sep s = true.
Proof.
  intros H. destruct (Py.contains sep s) eqn:E; [reflexivity|].
  rewrite (split_absent sep s E) in H. discriminate.
Qed.

Lemma fold_left_map {A B C : Type} (f : A -> B -> A) (g : C -> B)
  (l : list C) :
  forall a, fold_left (fun a x => f a (g x)) l a = fold_left f (map g l) a.
Proof. induction l as [|x l IH]; intros a; simpl; auto. Qed.

(** The loop that appends separated items builds their [join]. *)
Lemma fold_emit (toks : list string) :
  forall a sp,
  fold_left Cpuset.emit toks (a, sp)
  = (a ++ match toks with [] => "" | _ => sp ++ Py.join "," toks end,
     match toks with [] => sp | _ => "," end).
Proof.
  induction toks as [|t ts IH]; intros a sp.
  - cbn. rewrite append_nil_r. reflexivity.
  - cbn [fold_left]. unfold Cpuset.emit at 2. cbn [fst snd].
    rewrite IH. f_equal; [|destruct ts; reflexivity].
    destruct ts as [|t' ts].
    + cbn. rewrite append_nil_r, append_assoc. reflexivity.
    + change (Py.join "," (t :: t' :: ts))
        with (t ++ "," ++ Py.join "," (t' :: ts)).
      rewrite !append_assoc. reflexivity.
Qed.

Lemma dec_fold_nonneg (s : string) :
  Py.all_chars Py.is_dec s = true ->
  forall acc, 0 <= acc -> 0 <= dec_fold acc s.
Proof.
  induction s as [|c s IH]; intros H acc Hacc; [assumption|].
  cbn [dec_fold Py.all_chars] in *. apply andb_true_iff in H as [Hc Hs].
  apply IH; [assumption|].
  unfold Py.is_dec, Py.in_range in Hc.
  apply andb_true_iff in Hc as [Hc _]. apply Z.leb_le in Hc. lia.
Qed.

Lemma dec_value_nonneg (s : string) :
  is_number s = true -> 0 <= dec_value s.
Proof.
  intros H. apply is_number_all in H as [_ H].
  apply dec_fold_nonneg; [assumption | lia].
Qed.

Lemma map_dec_str (l : list Z) :
  Forall (fun x => 0 <= x) l -> map dec_value (map Py.str l) = l.
Proof.
  induction 1 as [|x l Hx Hl IH]; [reflexivity|].
  cbn [map]. rewrite dec_value_str, IH by assumption. reflexivity.
Qed.

Lemma range_nonneg (lo hi : Z) :
  0 <= lo -> Forall (fun x => 0 <= x) (Py.range lo hi).
Proof.
  intros H. apply Forall_forall. intros x Hx.
  apply range_bounds in Hx. lia.
Qed.

(** What a valid entry is made of. *)
Lemma valid_entry_cases (e : string) :
  valid_entry e = true ->
  (Py.split "-" e = [e] /\ is_number e = true
   /\ Py.contains "-" e = false)
  \/ (exists a b,
        Py.split "-" e = [a; b] /\ is_number a = true /\ is_number b = true
        /\ dec_value a < dec_value b /\ Py.contains "-" e = true).
Proof.
  unfold valid_entry. destruct (Py.split "-" e) as [|a [|b [|c t]]] eqn:E;
    try discriminate.
  - intros H. destruct (split_singleton _ _ _ E) as [Hc ->]. auto.
  - intros H. apply andb_true_iff in H as [H Hlt].
    apply andb_true_iff in H as [Ha Hb]. apply Z.ltb_lt in Hlt.
    right. exists a, b. pose proof (split_two _ _ _ _ _ E). auto.
Qed.

Lemma entry_tokens_valid (e : string) :
  valid_entry e = true ->
  Forall (fun t => is_number t = true) (entry_tokens e)
  /\ map dec_value (entry_tokens e) = entry_members e
  /\ entry_tokens e <> [].
Proof.
  intros H. unfold entry_tokens, entry_members.
  destruct (valid_entry_cases e H)
    as [(E & Hn & _) | (a & b & E & Ha & Hb & Hlt & _)]; rewrite E.
  - repeat split; [|discriminate]. constructor; [assumption | constructor].
  - pose proof (dec_value_nonneg a Ha) as Hnn.
    repeat split.
    + apply Forall_forall. intros t Ht.
      apply in_map_iff in Ht as [x [<- Hx]].
      apply range_bounds in Hx. apply str_is_number. lia.
    + apply map_dec_str, range_nonneg. assumption.
    + intros Hnil. apply map_eq_nil in Hnil.
      revert Hnil. apply range_nonempty. lia.
Qed.

(** The loop of [_range_to_list] over valid entries. *)
Lemma expand_valid (es : list string) :
  Forall (fun e => valid_entry e = true) es ->
  forall acc,
  Cpuset.expand acc es
  = Ok (fold_left Cpuset.emit (flat_map entry_tokens es) acc).
Proof.
  induction 1 as [|e es He Hes IH]; intros acc; [reflexivity|].
  cbn [Cpuset.expand flat_map]. rewrite fold_left_app.
  destruct (valid_entry_cases e He)
    as [(E & Hn & Hc) | (a & b & E & Ha & Hb & Hlt & Hc)].
  - assert (Et : entry_tokens e = [e])
      by (unfold entry_tokens; rewrite E; reflexivity).
    rewrite Hc, Et. apply IH.
  - assert (Et : entry_tokens e
                 = map Py.str (Py.range (dec_value a) (dec_value b + 1)))
      by (unfold entry_tokens; rewrite E; reflexivity).
    rewrite Hc, E, Et, (int_number a Ha), (int_number b Hb). cbn [bind].
    rewrite fold_left_map. apply IH.
Qed.

Lemma flat_map_tokens (es : list string) :
  Forall (fun e => valid_entry e = true) es ->
  Forall (fun t => is_number t = true) (flat_map entry_tokens es)
  /\ map dec_value (flat_map entry_tokens es) = flat_map entry_members es
  /\ (es <> [] -> flat_map entry_tokens es <> []).
Proof.
  induction 1 as [|e es He Hes (IH1 & IH2 & IH3)].
  - repeat split; [constructor | congruence].
  - destruct (entry_tokens_valid e He) as (H1 & H2 & H3).
    cbn [flat_map]. repeat split.
    + apply Forall_app; auto.
    + rewrite map_app, H2, IH2. reflexivity.
    + intros _ Hnil. apply app_eq_nil in Hnil as [Hnil _]. auto.
Qed.

Lemma valid_range_entries (r : string) :
  valid_range r = true -> r <> "" ->
  Forall (fun e => valid_entry e = true) (Py.split "," r).
Proof.
  unfold valid_range. intros H Hne.
  destruct (String.eqb_spec r "") as [E0|_]; [congruence|].
  cbn [orb] in H. apply Forall_forall. rewrite forallb_forall in H. exact H.
Qed.

(** [list()] of valid range notation: the tokens of its entries. *)
Lemma range_to_list_valid (r : string) :
  valid_range r = true -> r <> "" ->
  Cpuset._range_to_list (Cpuset.mk r)
  = Ok (Py.join "," (flat_map entry_tokens (Py.split "," r))).
Proof.
  intros Hv Hne. unfold Cpuset._range_to_list. cbn [cpus].
  destruct (String.eqb_spec r "") as [E0|_]; [congruence|].
  pose proof (valid_range_entries r Hv Hne) as Hes.
  rewrite (expand_valid _ Hes). cbn [bind]. rewrite fold_emit. cbn [fst].
  destruct (flat_map_tokens _ Hes) as (_ & _ & Hnil).
  destruct (split_cons "," r) as [h [t E]]. rewrite E in *.
  destruct (flat_map entry_tokens (h :: t)) eqn:Et;
    [exfalso; apply Hnil; [discriminate | reflexivity]|].
  reflexivity.
Qed.

Lemma sum_shifts_numbers (toks : list string) :
  Forall (fun t => is_number t = true) toks ->
  forall acc,
  Cpuset.sum_shifts acc toks = Ok (acc + sum2 (map dec_value toks)).
Proof.
  induction 1 as [|t toks Ht Htoks IH]; intros acc.
  - cbn. f_equal. lia.
  - cbn [Cpuset.sum_shifts]. rewrite (int_number t Ht). cbn [bind].
    pose proof (dec_value_nonneg t Ht) as Hnn.
    unfold Py.shl1. destruct (Z.ltb_spec (dec_value t) 0); [lia|].
    cbn [bind]. rewrite IH, Z.shiftl_1_l. cbn [map]. unfold sum2.
    cbn [fold_right]. f_equal. lia.
Qed.

Lemma numbers_no_comma (toks : list string) :
  Forall (fun t => is_number t = true) toks ->
  Forall (fun t => Py.contains "," t = false) toks.
Proof.
  intros H. eapply Forall_impl; [|exact H].
  intros t Ht. apply number_absent; [assumption | reflexivity].
Qed.

(** The sum that [mask()] formats, for valid range notation. *)
Lemma bitsum_valid (r : string) :
  valid_range r = true -> r <> "" ->
  bitsum (Cpuset.mk r) = Ok (sum2 (members_of r)).
Proof.
  intros Hv Hne. unfold bitsum.
  rewrite range_to_list_valid by assumption. cbn [bind].
  pose proof (valid_range_entries r Hv Hne) as Hes.
  destruct (flat_map_tokens _ Hes) as (Hnum & Hmem & Hnil).
  rewrite split_join.
  - rewrite sum_shifts_numbers by assumption. rewrite Hmem.
    unfold members_of. destruct (String.eqb_spec r ""); [congruence|].
    reflexivity.
  - apply Hnil. destruct (split_cons "," r) as [h [t ->]]. discriminate.
  - apply numbers_no_comma. assumption.
Qed.

Lemma mask_via_bitsum (self : Cpuset.t) :
  Cpuset.mask self
  = if (self.(cpus) =? "")%string then Ok ""
    else v <- bitsum self ;; Ok (Cpuset.group_hex (Py.format_x v)).
Proof.
  unfold Cpuset.mask, Cpuset._range_to_mask, bitsum.
  destruct (self.(cpus) =? "")%string; [reflexivity|].
  destruct (Cpuset._range_to_list self); reflexivity.
Qed.

End Parsing.

(** ** Canonical range strings *)

Section Canonical.

Lemma str_no (c : ascii) (n : Z) :
  0 <= n -> Py.is_dec c = false -> Py.contains c (Py.str n) = false.
Proof. intros Hn Hc. apply number_absent; [apply str_is_number|]; assumption. Qed.

Lemma str_nonempty (n : Z) : 0 <= n -> Py.str n <> "".
Proof.
  intros Hn. pose proof (str_is_number n Hn) as H.
  apply is_number_all in H. tauto.
Qed.

(** An entry written by [_mask_to_range] is a valid entry that denotes
    its run. *)
Lemma entry_run (r : Z * Z) :
  run_ok r ->
  Py.contains "," (entry r) = false
  /\ valid_entry (entry r) = true
  /\ entry_members (entry r) = Py.range (fst r) (snd r + 1)
  /\ entry r <> "".
Proof.
  destruct r as [s l]. unfold run_ok, entry, closing. cbn [fst snd].
  intros [Hs Hl].
  assert (Hne : forall t, Py.str s ++ t <> "").
  { intros t. pose proof (str_nonempty s Hs).
    destruct (Py.str s); [congruence | discriminate]. }
  destruct (Z.eqb_spec s l) as [<-|Hsl].
  - rewrite append_nil_r.
    assert (E : Py.split "-" (Py.str s) = [Py.str s])
      by (apply split_absent, str_no; [assumption | reflexivity]).
    unfold valid_entry, entry_members. rewrite E.
    rewrite dec_value_str, range_one by assumption.
    repeat split; [apply str_no | apply str_is_number | apply str_nonempty];
      assumption || reflexivity.
  - assert (E : Py.split "-" (Py.str s ++ "-" ++ Py.str l)
                = [Py.str s; Py.str l]).
    { change ("-" ++ Py.str l) with (String "-" (Py.str l)).
      rewrite split_app by (apply str_no; [assumption | reflexivity]).
      rewrite split_absent by (apply str_no; [lia | reflexivity]).
      reflexivity. }
    unfold valid_entry, entry_members. rewrite E.
    rewrite !dec_value_str, !str_is_number by lia.
    repeat split; [| |apply Hne].
    + rewrite !contains_app, !str_no by (lia || reflexivity). reflexivity.
    + cbn [andb]. apply Z.ltb_lt. lia.
Qed.

Lemma canonical_split (rs : list (Z * Z)) :
  rs <> [] -> Forall run_ok rs ->
  Py.split "," (canonical rs) = map entry rs.
Proof.
  intros Hne Hok. unfold canonical. apply split_join.
  - destruct rs; [congruence | discriminate].
  - apply Forall_forall. intros e He.
    apply in_map_iff in He as [r [<- Hr]].
    rewrite Forall_forall in Hok. apply entry_run; auto.
Qed.

Lemma canonical_nonempty (rs : list (Z * Z)) :
  rs <> [] -> Forall run_ok rs -> canonical rs <> "".
Proof.
  intros Hne Hok. destruct rs as [|r rs]; [congruence|].
  inversion Hok as [|? ? Hr _]; subst.
  destruct (entry_run r Hr) as (_ & _ & _ & He).
  unfold canonical. cbn [map Py.join].
  destruct (entry r) eqn:E; [congruence|].
  destruct (map entry rs); discriminate.
Qed.

Lemma canonical_empty_iff (rs : list (Z * Z)) :
  Forall run_ok rs -> (canonical rs = "" <-> rs = []).
Proof.
  intros Hok. split; [|intros ->; reflexivity].
  intros H. destruct rs as [|r rs]; [reflexivity|].
  exfalso. revert H. apply canonical_nonempty; [discriminate | assumption].
Qed.

Lemma canonical_valid (rs : list (Z * Z)) :
  Forall run_ok rs -> valid_range (canonical rs) = true.
Proof.
  intros Hok. unfold valid_range.
  destruct (String.eqb_spec (canonical rs) "") as [E|E]; [reflexivity|].
  cbn [orb]. rewrite canonical_split; [| |assumption].
  - apply forallb_forall. intros e He.
    apply in_map_iff in He as [r [<- Hr]].
    rewrite Forall_forall in Hok. apply entry_run; auto.
  - intros ->. apply E. reflexivity.
Qed.

Lemma canonical_members (rs : list (Z * Z)) :
  Forall run_ok rs -> members_of (canonical rs) = run_members rs.
Proof.
  intros Hok. unfold members_of.
  destruct (String.eqb_spec (canonical rs) "") as [E|E].
  - apply canonical_empty_iff in E; [|assumption]. subst. reflexivity.
  - rewrite canonical_split; [| |assumption].
    + unfold run_members. clear E.
      induction Hok as [|r rs Hr Hrs IH]; [reflexivity|].
      cbn [map flat_map]. rewrite IH.
      destruct (entry_run r Hr) as (_ & _ & -> & _). reflexivity.
    + intros ->. apply E. reflexivity.
Qed.

Lemma mask_runs_ok (m : string) : Forall run_ok (runs 0 None (mask_bits m)).
Proof. apply runs_ok; [lia | discriminate]. Qed.

Lemma mask_runs_sum (m : string) :
  sum2 (run_members (runs 0 None (mask_bits m))) = bval (mask_bits m).
Proof.
  rewrite runs_sum by (lia || discriminate).
  cbn [runs run_members flat_map sum2 fold_right]. lia.
Qed.

(** Every canonical range string is valid range notation. *)
Lemma canonical_of_mask_valid (m : string) :
  valid_range (canonical_of_mask m) = true.
Proof. apply canonical_valid, mask_runs_ok. Qed.

(** The sum that [mask()] formats for a canonical range string is the
    value of the bits of the mask it came from. *)
Lemma bitsum_canonical (m : string) :
  canonical_of_mask m <> "" ->
  bitsum (Cpuset.mk (canonical_of_mask m)) = Ok (bval (mask_bits m)).
Proof.
  intros Hne. rewrite bitsum_valid; [|apply canonical_of_mask_valid|exact Hne].
  unfold canonical_of_mask.
  rewrite canonical_members by apply mask_runs_ok.
  rewrite mask_runs_sum. reflexivity.
Qed.

(** The canonical range string of [format(v, 'x')] when [v] is the value
    of the bits of [m] is that of [m]. *)
Lemma canonical_format_x (m : string) :
  canonical_of_mask (Py.format_x (bval (mask_bits m))) = canonical_of_mask m.
Proof.
  unfold canonical_of_mask. f_equal. apply runs_bval.
  apply format_x_bval, bval_nonneg.
Qed.

Lemma mask_to_range_format_x (m : string) :
  Cpuset._mask_to_range (Py.format_x (bval (mask_bits m)))
  = Ok (canonical_of_mask m).
Proof.
  rewrite mask_to_range_hex by apply format_x_hex, bval_nonneg.
  rewrite canonical_format_x. reflexivity.
Qed.


End Canonical.

(** ** The grouping of hexadecimal digits *)

Section Grouping.

Lemma substring_full (s : string) : substring 0 (String.length s) s = s.
Proof. induction s as [|c s IH]; simpl; congruence. Qed.

Lemma substring_nonempty (s : string) :
  forall i k, (i < String.length s)%nat -> (0 < k)%nat ->
  substring i k s <> "".
Proof.
  induction s as [|c s IH]; intros i k Hi Hk; simpl in Hi; [lia|].
  destruct i as [|i]; simpl.
  - destruct k; [lia | discriminate].
  - apply IH; lia.
Qed.

Lemma substring_all (p : ascii -> bool) (s : string) :
  Py.all_chars p s = true ->
  forall i k, Py.all_chars p (substring i k s) = true.
Proof.
  induction s as [|c s IH]; intros H i k.
  - destruct i, k; reflexivity.
  - simpl in H. apply andb_true_iff in H as [Hc Hs].
    destruct i as [|i]; simpl.
    + destruct k as [|k]; [reflexivity|]. simpl. rewrite Hc. apply IH, Hs.
    + apply IH, Hs.
Qed.

Lemma last_char_app (a b : string) :
  b <> "" -> last_char (a ++ b) = last_char b.
Proof.
  intros Hb. induction a as [|c a IH]; [reflexivity|].
  cbn [append last_char]. rewrite IH.
  destruct (a ++ b) eqn:E; [|reflexivity].
  destruct a; [cbn in E; congruence | discriminate].
Qed.

Lemma last_char_all (p : ascii -> bool) (s : string) :
  s <> "" -> Py.all_chars p s = true ->
  exists c, last_char s = Some c /\ p c = true.
Proof.
  induction s as [|c s IH]; [congruence|].
  intros _ H. simpl in H. apply andb_true_iff in H as [Hc Hs].
  destruct s as [|d s]; [exists c; auto|].
  destruct IH as [x [Hx Hp]]; [discriminate | assumption |].
  exists x. split; [exact Hx | exact Hp].
Qed.

Lemma append_nonempty_r (a b : string) : b <> "" -> a ++ b <> "".
Proof. destruct a; [auto | discriminate]. Qed.

Lemma last_char_join (p : ascii -> bool) (sp : string) (l : list string) :
  l <> [] ->
  Forall (fun x => x <> "" /\ Py.all_chars p x = true) l ->
  Py.join sp l <> ""
  /\ exists c, last_char (Py.join sp l) = Some c /\ p c = true.
Proof.
  induction l as [|x l IH]; [congruence|].
  intros _ HF. inversion HF as [|? ? [Hx Hp] Hl]; subst.
  destruct l as [|y l].
  - cbn [Py.join]. split; [assumption | apply last_char_all; assumption].
  - destruct IH as [Hne [c [Hc Hpc]]]; [discriminate | assumption |].
    change (Py.join sp (x :: y :: l))
      with (x ++ sp ++ Py.join sp (y :: l)).
    split.
    + apply append_nonempty_r, append_nonempty_r, Hne.
    + exists c. rewrite !last_char_app;
        auto using append_nonempty_r.
Qed.

Lemma range8_bound (fuel : nat) :
  forall start stop i, In i (Py.range8 fuel start stop) -> (i < stop)%nat.
Proof.
  induction fuel as [|f IH]; intros start stop i; simpl; [tauto|].
  destruct (Nat.ltb_spec start stop) as [Hlt|Hge]; [|simpl; tauto].
  intros [<-|Hin]; [assumption | eapply IH, Hin].
Qed.


(** Fewer than eight digits: the digits and a comma. *)
Lemma group_hex_short (h : string) :
  (0 < String.length h < 8)%nat -> Cpuset.group_hex h = h ++ ",".
Proof.
  intros H. unfold Cpuset.group_hex.
  rewrite Nat.mod_small by lia.
  destruct (Nat.eqb_spec (String.length h) 0); [lia|]. cbn [negb].
  unfold Py.slice. rewrite Nat.sub_0_r, substring_full.
  destruct (String.length h) as [|k] eqn:E; [lia|].
  cbn [Py.range8]. rewrite Nat.ltb_irrefl. cbn [map Py.join].
  apply append_nil_r.
Qed.


(** Eight digits or more: the last character is a digit of [h]. *)
Lemma group_hex_last (p : ascii -> bool) (h : string) :
  Py.all_chars p h = true -> (8 <= String.length h)%nat ->
  exists c, last_char (Cpuset.group_hex h) = Some c /\ p c = true.
Proof.
  intros Hp Hlen. unfold Cpuset.group_hex.
  remember (String.length h) as n eqn:En.
  pose proof (Nat.mod_upper_bound n 8 ltac:(lia)) as Hmod.
  set (chunks := map (fun i => Py.slice i (i + 8) h)
                     (Py.range8 n (n mod 8) n)).
  destruct (last_char_join p "," chunks) as [Hne [c [Hc Hpc]]].
  - unfold chunks. destruct n as [|n']; [lia|]. cbn [Py.range8].
    destruct (Nat.ltb_spec (S n' mod 8) (S n')); [discriminate | lia].
  - unfold chunks. apply Forall_forall. intros x Hx.
    apply in_map_iff in Hx as [i [<- Hi]]. apply range8_bound in Hi.
    unfold Py.slice. split.
    + apply substring_nonempty; lia.
    + apply substring_all, Hp.
  - exists c. rewrite last_char_app by exact Hne. auto.
Qed.

End Grouping.

(** ** Sums of powers of two and bit masks *)

Section Bitmask.

Lemma sum2_nonneg (ms : list Z) : 0 <= sum2 ms.
Proof.
  induction ms as [|p ms IH]; unfold sum2 in *; cbn [fold_right]; [lia|].
  pose proof (Z.pow_nonneg 2 p ltac:(lia)). lia.
Qed.

Lemma sum2_pos (ms : list Z) :
  ms <> [] -> Forall (fun x => 0 <= x) ms -> 0 < sum2 ms.
Proof.
  intros Hne H. destruct H as [|p ms Hp Hms]; [congruence|].
  pose proof (sum2_nonneg ms). unfold sum2 in *. cbn [fold_right].
  pose proof (Z.pow_pos_nonneg 2 p ltac:(lia) Hp). lia.
Qed.

Lemma bitmask_nonneg (ms : list Z) : 0 <= bitmask ms.
Proof.
  induction ms as [|p ms IH]; unfold bitmask in *; cbn [fold_right]; [lia|].
  rewrite Z.setbit_spec'. apply Z.lor_nonneg. split; [assumption|].
  apply Z.pow_nonneg. lia.
Qed.

Lemma bitmask_testbit (ms : list Z) (q : Z) :
  Forall (fun x => 0 <= x) ms -> 0 <= q ->
  Z.testbit (bitmask ms) q = true -> In q ms.
Proof.
  intros Hms Hq. induction Hms as [|p ms Hp Hms IH].
  - unfold bitmask. cbn. rewrite Z.testbit_0_l. discriminate.
  - unfold bitmask in *. cbn [fold_right].
    destruct (Z.eq_dec p q) as [->|Hne]; [left; reflexivity|].
    rewrite Z.setbit_neq by assumption. right. auto.
Qed.

(** Without a repeated CPU, the sum of the shifts is the bit mask. *)
Lemma sum2_bitmask (ms : list Z) :
  NoDup ms -> Forall (fun x => 0 <= x) ms -> sum2 ms = bitmask ms.
Proof.
  induction 1 as [|p ms Hnin Hnd IH]; intros Hms; [reflexivity|].
  inversion Hms as [|? ? Hp Hms']; subst.
  unfold sum2, bitmask in *. cbn [fold_right].
  rewrite IH by assumption. fold (bitmask ms).
  rewrite Z.setbit_spec'.
  assert (Hland : Z.land (2 ^ p) (bitmask ms) = 0).
  { apply Z.bits_inj'. intros i Hi.
    rewrite Z.land_spec, Z.bits_0, Z.pow2_bits_eqb by assumption.
    destruct (Z.eqb_spec p i) as [->|_]; [|reflexivity].
    destruct (Z.testbit (bitmask ms) i) eqn:E; [|reflexivity].
    exfalso. apply Hnin. apply bitmask_testbit; assumption. }
  rewrite Z.add_nocarry_lxor, Z.lxor_lor by assumption.
  apply Z.lor_comm.
Qed.

Lemma bitmask_bound (ms : list Z) (k : Z) :
  0 <= k ->
  Forall (fun x => 0 <= x) ms -> Forall (fun x => x < k) ms ->
  bitmask ms < 2 ^ k.
Proof.
  intros Hk Hnn Hlt. pose proof (bitmask_nonneg ms) as H0.
  destruct (Z.eq_dec (bitmask ms) 0) as [->|Hz];
    [apply Z.pow_pos_nonneg; lia|].
  apply Z.log2_lt_pow2; [lia|].
  pose proof (Z.bit_log2 (bitmask ms) ltac:(lia)) as Hbit.
  apply bitmask_testbit in Hbit; [|assumption|apply Z.log2_nonneg].
  rewrite Forall_forall in Hlt. apply Hlt, Hbit.
Qed.

Lemma format_x_length_short (v : Z) :
  0 < v < 2 ^ 28 -> (0 < String.length (Py.format_x v) < 8)%nat.
Proof.
  intros Hv. unfold Py.format_x. destruct (Z.ltb_spec v 0); [lia|].
  rewrite numeral_pos by lia.
  rewrite <- length_chars, list_ascii_of_string_of_list_ascii.
  rewrite length_rev, length_map.
  pose proof (digits_lsb_length 16 (fuel_of v) 7 ltac:(lia) v
                ltac:(change (16 ^ Z.of_nat 7) with (2 ^ 28); lia)).
  pose proof (digits_lsb_nonempty 16 (Z.to_nat (Z.log2 v)) v ltac:(lia)) as Hne.
  fold (fuel_of v) in Hne.
  destruct (Py.digits_lsb 16 (fuel_of v) v); [congruence | simpl in *; lia].
Qed.


Lemma members_nonneg (r : string) :
  valid_range r = true -> Forall (fun x => 0 <= x) (members_of r).
Proof.
  intros Hv. unfold members_of.
  destruct (String.eqb_spec r "") as [E|E]; [constructor|].
  destruct (flat_map_tokens _ (valid_range_entries r Hv E)) as (Hn & <- & _).
  apply Forall_forall. intros x Hx.
  apply in_map_iff in Hx as [t [<- Ht]].
  rewrite Forall_forall in Hn. apply dec_value_nonneg, Hn, Ht.
Qed.

Lemma members_nonempty (r : string) :
  valid_range r = true -> r <> "" -> members_of r <> [].
Proof.
  intros Hv E. unfold members_of.
  destruct (String.eqb_spec r "") as [E'|_]; [congruence|].
  destruct (flat_map_tokens _ (valid_range_entries r Hv E)) as (_ & <- & Hne).
  intros H. apply map_eq_nil in H. revert H. apply Hne.
  destruct (split_cons "," r) as [h [t ->]]. discriminate.
Qed.

End Bitmask.

(** ** Text that is not range notation *)

Section Malformed.




Lemma new_mask_cases (text : string) :
  Cpuset.new text true
  = if is_hex_string (Py.strip text)
    then Ok (Cpuset.mk (canonical_of_mask (Py.strip text)))
    else Raise ValueError.
Proof.
  unfold Cpuset.new. rewrite mask_to_range_cases.
  destruct (is_hex_string (Py.strip text)); reflexivity.
Qed.

Lemma list_to_range_valid (l r : string) :
  Cpuset._list_to_range l = Ok r -> valid_range r = true.
Proof.
  unfold Cpuset._list_to_range.
  destruct (Cpuset.sum_shifts 0 (Py.split "," l)) as [v|e]; [|discriminate].
  cbn [bind]. rewrite mask_to_range_cases.
  destruct (is_hex_string (Py.format_x v)); [|discriminate].
  intros [= <-]. apply canonical_of_mask_valid.
Qed.

End Malformed.

(** * The properties of the specification *)

(** ** C2, C3 and C5: the scenarios *)

(** C2, as the specification states it, does not hold: [mask()] of the set
    built from range text "0-3,7" is not "8d". *)
Lemma mask_scenario_not_8d :
  (s <- Cpuset.new "0-3,7" false ;; Cpuset.mask s) <> Ok "8d".
Proof. vm_compute. discriminate. Qed.

(** C2, amended: [mask()] of the set built from range text "0-3,7" is
    "8f,": the hexadecimal digits of 1+2+4+8+128 = 0x8f, and the comma that
    follows a leading group of fewer than eight digits. *)
Theorem mask_scenario :
  (s <- Cpuset.new "0-3,7" false ;; Cpuset.mask s) = Ok "8f,".
Proof. vm_compute. reflexivity. Qed.

(** C3, as the specification states it, does not hold: [range()] of the
    set built from mask text "8d" is not "0-3,7". *)
Lemma range_scenario_not_0_3_7 :
  (s <- Cpuset.new "8d" true ;; Ok (Cpuset.range s)) <> Ok "0-3,7".
Proof. vm_compute. discriminate. Qed.

(** C3, amended: [range()] of the set built from mask text "8d" is
    "0,2-3,7", the bits of 0x8d being 0, 2, 3 and 7; it is mask text "8f"
    that gives "0-3,7". *)
Theorem range_scenario :
  (s <- Cpuset.new "8d" true ;; Ok (Cpuset.range s)) = Ok "0,2-3,7"
  /\ (s <- Cpuset.new "8f" true ;; Ok (Cpuset.range s)) = Ok "0-3,7".
Proof. split; vm_compute; reflexivity. Qed.

(** C5, as the specification states it, does not hold: removing "2-3" from
    "0-7" does not leave "0,1,4-7". *)
Lemma remove_scenario_not_0_1_4_7 :
  (a <- Cpuset.new "0-7" false ;;
   b <- Cpuset.new "2-3" false ;;
   r <- Cpuset.remove_cpuset a b ;;
   Ok (Cpuset.range r)) <> Ok "0,1,4-7".
Proof. vm_compute. discriminate. Qed.

(** C5, amended: removing "2-3" from "0-7" leaves "0-1,4-7": a run of two
    CPUs is written as a range too. *)
Theorem remove_scenario :
  (a <- Cpuset.new "0-7" false ;;
   b <- Cpuset.new "2-3" false ;;
   r <- Cpuset.remove_cpuset a b ;;
   Ok (Cpuset.range r)) = Ok "0-1,4-7".
Proof. vm_compute. reflexivity. Qed.

(** ** C4: order and duplicates in list notation *)

Lemma int_raises (s : string) (e : exn) :
  Py.int s = Raise e -> e = ValueError.
Proof.
  unfold Py.int.
  destruct (Py.rstrip_with Py.is_int_space (Py.lstrip_with Py.is_int_space s))
    as [|c t]; cbn.
  - intros [= <-]. reflexivity.
  - destruct c as [[] [] [] [] [] [] [] []];
      match goal with
      | |- context [Py.int_digits ?a ?b ?x] => destruct (Py.int_digits a b x)
      end; intros [= <-] || discriminate; reflexivity.
Qed.

Lemma shift_term_raises (num : string) (e : exn) :
  (n <- Py.int num ;; Py.shl1 n) = Raise e -> e = ValueError.
Proof.
  destruct (Py.int num) as [n|e'] eqn:E; cbn [bind].
  - unfold Py.shl1. destruct (n <? 0); [intros [= <-]; reflexivity|].
    discriminate.
  - intros [= <-]. eapply int_raises, E.
Qed.

Lemma sum_shifts_cons (num : string) (l : list string) (acc : Z) :
  Cpuset.sum_shifts acc (num :: l)
  = (p <- (n <- Py.int num ;; Py.shl1 n) ;; Cpuset.sum_shifts (acc + p) l).
Proof. cbn [Cpuset.sum_shifts]. destruct (Py.int num); reflexivity. Qed.

Lemma sum_shifts_raises (l : list string) :
  forall acc e, Cpuset.sum_shifts acc l = Raise e -> e = ValueError.
Proof.
  induction l as [|num l IH]; intros acc e; [discriminate|].
  rewrite sum_shifts_cons.
  destruct (n <- Py.int num ;; Py.shl1 n) as [p|e'] eqn:E; cbn [bind].
  - apply IH.
  - intros [= <-]. eapply shift_term_raises, E.
Qed.

(** The sum of the shifts does not depend on the order of the numbers. *)
Lemma sum_shifts_perm (l1 l2 : list string) :
  Permutation l1 l2 ->
  forall acc, Cpuset.sum_shifts acc l1 = Cpuset.sum_shifts acc l2.
Proof.
  induction 1 as [|x l1 l2 Hp IH|x y l|l1 l2 l3 H12 IH12 H23 IH23];
    intros acc.
  - reflexivity.
  - rewrite !sum_shifts_cons.
    destruct (n <- Py.int x ;; Py.shl1 n); cbn [bind]; auto.
  - destruct (n <- Py.int x ;; Py.shl1 n) as [p|e1] eqn:Ex;
      destruct (n <- Py.int y ;; Py.shl1 n) as [q|e2] eqn:Ey;
      repeat (rewrite sum_shifts_cons, ?Ex, ?Ey; cbn [bind]).
    + f_equal. lia.
    + reflexivity.
    + reflexivity.
    + apply shift_term_raises in Ex, Ey. congruence.
  - rewrite IH12. apply IH23.
Qed.

(** C4.  The order of the numbers of a list does not change what
    [_list_to_range] returns; a repeated number does: the loop adds
    [1 << 7] twice for "7,7", which sets bit 8 and not bit 7, so the list
    "7,7" is converted to the range "8" while the list "7" is converted
    to "7". *)
Theorem list_to_range_order_duplicates :
  (forall l1 l2,
     Permutation (Py.split "," l1) (Py.split "," l2) ->
     Cpuset._list_to_range l1 = Cpuset._list_to_range l2)
  /\ Cpuset._list_to_range "7,7" = Ok "8"
  /\ Cpuset._list_to_range "7" = Ok "7".
Proof.
  split; [|split; vm_compute; reflexivity].
  intros l1 l2 Hp. unfold Cpuset._list_to_range.
  rewrite (sum_shifts_perm _ _ Hp). reflexivity.
Qed.

Lemma list_to_range_order_duplicates_witness :
  Permutation (Py.split "," "7,0,3,1,2") (Py.split "," "0,1,2,3,7")
  /\ Cpuset._list_to_range "7,0,3,1,2" = Cpuset._list_to_range "0,1,2,3,7".
Proof.
  assert (Hp : Permutation (Py.split "," "7,0,3,1,2")
                           (Py.split "," "0,1,2,3,7")).
  { change (Permutation ["7"; "0"; "3"; "1"; "2"] ["0"; "1"; "2"; "3"; "7"]).
    apply Permutation_cons_app with (l1 := ["0"; "1"; "2"; "3"]) (l2 := []).
    cbn [app]. apply perm_skip.
    apply Permutation_cons_app with (l1 := ["1"; "2"]) (l2 := []).
    cbn [app]. apply Permutation_refl. }
  split; [exact Hp|].
  apply (proj1 list_to_range_order_duplicates). exact Hp.
Defined.

(** ** C9: both sets empty *)

(** C9: when [self] and the operand both hold the empty string, [add_cpuset]
    raises [ValueError], the one that [_list_to_range] raises on the empty
    list, while [remove_cpuset] sets [cpus] to the empty string. *)
Theorem empty_add_raises (self other : Cpuset.t) :
  self.(cpus) = "" -> other.(cpus) = "" ->
  Cpuset.add_cpuset self other = Raise ValueError
  /\ Cpuset._list_to_range "" = Raise ValueError
  /\ Cpuset.remove_cpuset self other = Ok (Cpuset.mk "").
Proof.
  destruct self as [a], other as [b]. cbn [cpus]. intros -> ->.
  repeat split; vm_compute; reflexivity.
Qed.

Lemma empty_add_raises_witness :
  Cpuset.add_cpuset (Cpuset.mk "") (Cpuset.mk "") = Raise ValueError
  /\ Cpuset._list_to_range "" = Raise ValueError
  /\ Cpuset.remove_cpuset (Cpuset.mk "") (Cpuset.mk "") = Ok (Cpuset.mk "").
Proof.
  apply (empty_add_raises (Cpuset.mk "") (Cpuset.mk "")); reflexivity.
Defined.

(** ** C6: the invariant of [cpus] *)

(** C6: whatever [_mask_to_range] returns is valid range notation, and it
    does return for every hexadecimal mask; so is the [cpus] of a set
    constructed from a mask, and the [cpus] that
    [add_cpuset] and [remove_cpuset] store; a set whose [cpus] is valid
    keeps it valid through both operations, also when they raise. *)
Theorem range_invariant :
  (forall m r, Cpuset._mask_to_range m = Ok r -> valid_range r = true)
  /\ (forall m, is_hex_string m = true ->
               exists r, Cpuset._mask_to_range m = Ok r)
  /\ (forall text c,
        Cpuset.new text true = Ok c -> valid_range c.(cpus) = true)
  /\ (forall self other c,
        Cpuset.add_cpuset self other = Ok c \/
        Cpuset.remove_cpuset self other = Ok c ->
        valid_range c.(cpus) = true)
  /\ (forall self other,
        valid_range self.(cpus) = true ->
        valid_range (Cpuset.after self (Cpuset.add_cpuset self other)).(cpus)
        = true
        /\ valid_range
             (Cpuset.after self (Cpuset.remove_cpuset self other)).(cpus)
           = true).
Proof.
  assert (Hmask : forall m r,
             Cpuset._mask_to_range m = Ok r -> valid_range r = true).
  { intros m r. rewrite mask_to_range_cases.
    destruct (is_hex_string m); [|discriminate].
    intros [= <-]. apply canonical_of_mask_valid. }
  assert (Hadd : forall self other c,
             Cpuset.add_cpuset self other = Ok c ->
             valid_range c.(cpus) = true).
  { intros self other c. unfold Cpuset.add_cpuset.
    destruct (Cpuset.list self) as [la|]; [|discriminate].
    destruct (Cpuset.list other) as [lb|]; [|discriminate]. cbn [bind].
    destruct (Cpuset.keep_digits _ _ _) as [acc1|]; [|discriminate].
    cbn [bind].
    destruct (Cpuset.keep_digits _ _ _) as [acc2|]; [|discriminate].
    cbn [bind].
    destruct (Cpuset._list_to_range (fst acc2)) as [r|] eqn:E;
      [|discriminate].
    intros [= <-]. cbn [cpus]. eapply list_to_range_valid, E. }
  assert (Hrem : forall self other c,
             Cpuset.remove_cpuset self other = Ok c ->
             valid_range c.(cpus) = true).
  { intros self other c. unfold Cpuset.remove_cpuset.
    destruct (Cpuset.list self) as [la|]; [|discriminate]. cbn [bind].
    destruct (Cpuset.keep_digits _ _ _) as [acc|]; [|discriminate].
    cbn [bind].
    destruct (fst acc =? "")%string; [intros [= <-]; reflexivity|].
    destruct (Cpuset._list_to_range (fst acc)) as [r|] eqn:E;
      [|discriminate].
    intros [= <-]. cbn [cpus]. eapply list_to_range_valid, E. }
  split; [exact Hmask|]. split; [|split; [|split]].
  - intros m Hm. eexists. apply mask_to_range_hex, Hm.
  - intros text c. unfold Cpuset.new.
    destruct (Cpuset._mask_to_range (Py.strip text)) as [r|] eqn:E;
      [|discriminate].
    intros [= <-]. cbn [cpus]. eapply Hmask, E.
  - intros self other c [H|H]; [eapply Hadd | eapply Hrem]; exact H.
  - intros self other Hv. split.
    + destruct (Cpuset.add_cpuset self other) as [c|] eqn:E;
        [eapply Hadd, E | exact Hv].
    + destruct (Cpuset.remove_cpuset self other) as [c|] eqn:E;
        [eapply Hrem, E | exact Hv].
Qed.

Lemma range_invariant_witness :
  valid_range (Cpuset.mk "0-3").(cpus) = true
  /\ valid_range
       (Cpuset.after (Cpuset.mk "0-3")
          (Cpuset.add_cpuset (Cpuset.mk "0-3") (Cpuset.mk "5-7"))).(cpus)
     = true.
Proof.
  split; [reflexivity|].
  apply (proj2 (proj2 (proj2 (proj2 range_invariant)))
           (Cpuset.mk "0-3") (Cpuset.mk "5-7")).
  reflexivity.
Defined.

(** ** C1: the round trips *)




(** ** C7: malformed input *)




(** ** C8: the trailing comma *)

(** C8 at the input "27,27", which is valid range notation whose members
    are below 28: the loop adds [1 << 27] twice, and [mask()] is "10000000",
    not the digits "8000000" of the bit mask of CPU 27 followed by a
    comma. *)
Theorem mask_repeated_member :
  valid_range "27,27" = true
  /\ members_of "27,27" = [27; 27]
  /\ Py.format_x (bitmask [27; 27]) ++ "," = "8000000,"
  /\ Cpuset.mask (Cpuset.mk "27,27") = Ok "10000000".
Proof. repeat split; vm_compute; reflexivity. Qed.

(** The trailing comma of [mask()].  For a set whose [cpus] is valid range
    notation, not empty, in which no CPU is listed twice and every CPU is
    below [cpu_bound]: [mask()] is the grouping of the
    hexadecimal digits of the bit mask; when every member is below 28 it is
    these digits followed by a comma; when there are eight digits or more
    its last character is a hexadecimal digit, not a comma. *)
Theorem mask_trailing_comma (r : string) :
  valid_range r = true -> r <> "" -> NoDup (members_of r) ->
  Forall (fun n => n < cpu_bound) (members_of r) ->
  let h := Py.format_x (bitmask (members_of r)) in
  Cpuset.mask (Cpuset.mk r) = Ok (Cpuset.group_hex h)
  /\ (Forall (fun n => n < 28) (members_of r) ->
      Cpuset.mask (Cpuset.mk r) = Ok (h ++ ","))
  /\ ((8 <= String.length h)%nat ->
      exists k c,
        Cpuset.mask (Cpuset.mk r) = Ok k
        /\ last_char k = Some c /\ Py.is_hex c = true /\ c <> ","%char).
Proof.
  intros Hv Hne Hnd _ h.
  pose proof (members_nonneg r Hv) as Hnn.
  assert (Hmask : Cpuset.mask (Cpuset.mk r) = Ok (Cpuset.group_hex h)).
  { rewrite mask_via_bitsum. cbn [cpus].
    destruct (String.eqb_spec r "") as [E|_]; [congruence|].
    rewrite bitsum_valid by assumption. cbn [bind].
    rewrite sum2_bitmask by assumption. reflexivity. }
  split; [exact Hmask|]. split.
  - intros Hlt. rewrite Hmask. f_equal. apply group_hex_short.
    apply format_x_length_short. split.
    + rewrite <- sum2_bitmask by assumption.
      apply sum2_pos; [apply members_nonempty|]; assumption.
    + apply bitmask_bound; [lia | assumption | assumption].
  - intros Hlen.
    destruct (group_hex_last Py.is_hex h) as [c [Hc Hhex]];
      [apply format_x_hex, bitmask_nonneg | exact Hlen |].
    exists (Cpuset.group_hex h), c. repeat split; try assumption.
    intros ->. discriminate.
Qed.

Example mask_trailing_comma_0_3_7 :
  valid_range "0-3,7" = true
  /\ Cpuset.mask (Cpuset.mk "0-3,7") = Ok "8f,".
Proof.
  split; [reflexivity|].
  assert (Hnd : NoDup (members_of "0-3,7")).
  { vm_compute. repeat constructor; cbn; intuition discriminate. }
  assert (Hb : Forall (fun n => n < cpu_bound) (members_of "0-3,7")).
  { vm_compute. repeat constructor. }
  destruct (mask_trailing_comma "0-3,7" eq_refl ltac:(discriminate) Hnd Hb)
    as (_ & Hshort & _).
  rewrite Hshort; [reflexivity|].
  vm_compute. repeat constructor.
Defined.

(** ** C10: mask text that is not hexadecimal *)




(** * Further properties of the class *)

(** ** The members of a mask *)

Section Positions.

Lemma positions_lb (bs : list bool) :
  forall pos q, In q (positions pos bs) -> pos <= q.
Proof.
  induction bs as [|b bs IH]; intros pos q; cbn [positions]; [intros []|].
  intros H. apply in_app_or in H as [H|H].
  - destruct b; [destruct H as [<-|[]]; lia | destruct H].
  - apply IH in H. lia.
Qed.

Lemma positions_nodup (bs : list bool) :
  forall pos, NoDup (positions pos bs).
Proof.
  induction bs as [|b bs IH]; intros pos; cbn [positions]; [constructor|].
  destruct b; cbn [app]; [|apply IH].
  constructor; [|apply IH].
  intros H. apply positions_lb in H. lia.
Qed.

Lemma positions_nonneg (bs : list bool) (pos : Z) :
  0 <= pos -> Forall (fun q => 0 <= q) (positions pos bs).
Proof.
  intros H. apply Forall_forall. intros q Hq.
  apply positions_lb in Hq. lia.
Qed.

Lemma testbit_cons (b : bool) (x n : Z) :
  0 <= n ->
  Z.testbit (Z.b2z b + 2 * x) n
  = if n =? 0 then b else Z.testbit x (n - 1).
Proof.
  intros Hn. replace (Z.b2z b + 2 * x) with (2 * x + Z.b2z b) by lia.
  destruct (Z.eqb_spec n 0) as [->|Hz].
  - apply Z.testbit_0_r.
  - replace n with (Z.succ (n - 1)) at 1 by lia.
    apply Z.testbit_succ_r. lia.
Qed.

(** A position is listed when its bit is set. *)
Lemma positions_testbit (bs : list bool) :
  forall pos q,
  In q (positions pos bs)
  <-> pos <= q /\ Z.testbit (bval bs) (q - pos) = true.
Proof.
  induction bs as [|b bs IH]; intros pos q; cbn [positions bval].
  - rewrite Z.testbit_0_l. split; [intros [] | intros [_ H]; discriminate].
  - rewrite in_app_iff, IH. split.
    + intros [H|[H1 H2]].
      * destruct b; [|destruct H]. destruct H as [<-|[]].
        split; [lia|]. rewrite Z.sub_diag, testbit_cons by lia. reflexivity.
      * split; [lia|]. rewrite testbit_cons by lia.
        destruct (Z.eqb_spec (q - pos) 0); [lia|].
        replace (q - pos - 1) with (q - (pos + 1)) by lia. exact H2.
    + intros [H1 H2]. rewrite testbit_cons in H2 by lia.
      destruct (Z.eqb_spec (q - pos) 0) as [E|E].
      * left. subst b. left. lia.
      * right. split; [lia|].
        replace (q - (pos + 1)) with (q - pos - 1) by lia. exact H2.
Qed.

(** The members of the runs are the positions of the set bits. *)
Lemma runs_members (bs : list bool) :
  forall pos open,
  (forall r, open = Some r -> fst r <= snd r /\ snd r = pos - 1) ->
  run_members (runs pos open bs)
  = (run_members (runs pos open []) ++ positions pos bs)%list.
Proof.
  induction bs as [|b bs IH]; intros pos open Hopen.
  - cbn [positions]. rewrite app_nil_r. reflexivity.
  - rewrite runs_step. cbn [positions].
    destruct b, open as [[s l]|]; cbn [next_open].
    + destruct (Hopen _ eq_refl) as [H1 H2]. cbn [fst snd] in *.
      rewrite IH by (intros r [= <-]; cbn; lia).
      cbn [runs run_members flat_map fst snd]. rewrite !app_nil_r.
      rewrite (range_snoc s pos) by lia.
      replace (l + 1) with pos by lia.
      rewrite <- !app_assoc. reflexivity.
    + rewrite IH by (intros r [= <-]; cbn; lia).
      cbn [runs run_members flat_map fst snd app].
      rewrite range_one. reflexivity.
    + cbn [run_members flat_map].
      fold (run_members (runs (pos + 1) None bs)).
      rewrite IH by discriminate.
      cbn [runs run_members flat_map app]. rewrite app_nil_r. reflexivity.
    + rewrite IH by discriminate. reflexivity.
Qed.

Lemma canonical_positions (m : string) :
  members_of (canonical_of_mask m) = positions 0 (mask_bits m).
Proof.
  unfold canonical_of_mask.
  rewrite canonical_members by apply mask_runs_ok.
  rewrite runs_members by discriminate. reflexivity.
Qed.

Lemma hex_value_range (c : ascii) (d : Z) :
  Py.hex_value c = Some d -> 0 <= d < 16.
Proof.
  destruct c as [[] [] [] [] [] [] [] []]; vm_compute;
    intros [=]; subst; split; discriminate || reflexivity.
Qed.

Lemma bval_app (a b : list bool) :
  bval (a ++ b) = bval a + 2 ^ Z.of_nat (List.length a) * bval b.
Proof.
  induction a as [|x a IH]; [cbn [app bval List.length Z.of_nat]; lia|].
  cbn [app bval List.length]. rewrite IH, Nat2Z.inj_succ, Z.pow_succ_r; lia.
Qed.

Lemma hex_fold_acc (s : string) :
  forall acc,
  hex_fold acc s = acc * 16 ^ Z.of_nat (String.length s) + hex_fold 0 s.
Proof.
  induction s as [|c s IH]; intros acc; cbn [hex_fold String.length].
  - cbn. lia.
  - rewrite IH, (IH (16 * 0 + _)), Nat2Z.inj_succ, Z.pow_succ_r; lia.
Qed.

Lemma char_bits_hex (c : ascii) :
  Py.is_hex c = true ->
  List.length (char_bits c) = 4%nat
  /\ bval (char_bits c)
     = match Py.hex_value c with Some d => d | None => 0 end.
Proof.
  intros H. destruct (is_hex_value c H) as [d Hd].
  unfold char_bits. rewrite Hd. split; [reflexivity|].
  pose proof (bval_app_digit d [] (hex_value_range c d Hd)) as E.
  rewrite app_nil_r in E. cbn [bval] in E. lia.
Qed.

(** The value of the bits of a hexadecimal mask is the number it writes. *)
Lemma mask_bits_value (m : string) :
  is_hex_string m = true ->
  bval (mask_bits m) = hex_number m
  /\ List.length (mask_bits m) = (4 * String.length m)%nat.
Proof.
  unfold mask_bits, hex_number, is_hex_string.
  induction m as [|c m IH]; [split; reflexivity|].
  cbn [Py.all_chars]. intros H. apply andb_true_iff in H as [Hc Hm].
  destruct (IH Hm) as [IHv IHl]. destruct (char_bits_hex c Hc) as [Hl Hv].
  cbn [list_ascii_of_string rev hex_fold String.length].
  rewrite flat_map_app. cbn [flat_map]. rewrite app_nil_r.
  split.
  - rewrite bval_app, IHv, IHl, Hv.
    set (d := match Py.hex_value c with Some d => d | None => 0 end).
    rewrite (hex_fold_acc m (16 * 0 + d)).
    replace (Z.of_nat (4 * String.length m))
      with (4 * Z.of_nat (String.length m)) by lia.
    rewrite Z.pow_mul_r by lia. change (2 ^ 4) with 16. lia.
  - rewrite length_app, IHl, Hl. lia.
Qed.

Lemma hex_number_nonneg (m : string) :
  is_hex_string m = true -> 0 <= hex_number m.
Proof.
  intros H. destruct (mask_bits_value m H) as [<- _]. apply bval_nonneg.
Qed.

(** Trimming leaves a string of hexadecimal digits alone. *)
Lemma strip_hex (m : string) : is_hex_string m = true -> Py.strip m = m.
Proof.
  intros H. unfold Py.strip.
  assert (Hns : Py.all_chars (fun c => negb (Py.is_space c)) m = true).
  { eapply all_chars_impl; [|exact H].
    intros c. destruct c as [[] [] [] [] [] [] [] []]; vm_compute;
      intros; congruence. }
  destruct m as [|c m]; [reflexivity|].
  rewrite lstrip_head; [apply rstrip_all, Hns|].
  simpl in Hns. apply andb_true_iff in Hns as [Hc _].
  apply negb_true_iff, Hc.
Qed.

End Positions.

(** ** What a mask denotes *)

Section MaskMeaning.

Lemma new_mask_ok (m : string) (a : Cpuset.t) :
  Cpuset.new m true = Ok a ->
  is_hex_string (Py.strip m) = true
  /\ a = Cpuset.mk (canonical_of_mask (Py.strip m)).
Proof.
  rewrite new_mask_cases.
  destruct (is_hex_string (Py.strip m)); [|discriminate].
  intros [= <-]. auto.
Qed.

Lemma runs_separated (bs : list bool) :
  forall pos open lo,
  match open with
  | None => lo <= pos
  | Some r => lo <= fst r <= snd r /\ snd r = pos - 1
  end ->
  separated lo (runs pos open bs).
Proof.
  induction bs as [|b bs IH]; intros pos open lo H.
  - destruct open as [r|]; cbn; [tauto | exact I].
  - rewrite runs_step. destruct b, open as [[s l]|]; cbn [next_open].
    + apply IH. cbn [fst snd] in *. lia.
    + apply IH. cbn [fst snd]. lia.
    + cbn [separated fst snd] in *. split; [tauto|].
      apply IH. lia.
    + apply IH. lia.
Qed.

End MaskMeaning.

(** A set constructed from a mask has the CPU [q] when bit [q] of the
    number that the mask writes is set: [cpus] is valid range notation that
    lists these CPUs, each one once. *)
Theorem mask_members (m : string) (a : Cpuset.t) :
  Cpuset.new m true = Ok a ->
  valid_range a.(cpus) = true
  /\ NoDup (members_of a.(cpus))
  /\ forall q,
       In q (members_of a.(cpus))
       <-> 0 <= q /\ Z.testbit (hex_number (Py.strip m)) q = true.
Proof.
  intros H. destruct (new_mask_ok m a H) as [Hhex ->]. cbn [cpus].
  rewrite canonical_positions.
  split; [apply canonical_of_mask_valid|].
  split; [apply positions_nodup|].
  intros q. rewrite positions_testbit, Z.sub_0_r.
  destruct (mask_bits_value _ Hhex) as [-> _]. reflexivity.
Qed.

Lemma mask_members_witness :
  Cpuset.new "8d" true = Ok (Cpuset.mk "0,2-3,7")
  /\ NoDup (members_of "0,2-3,7").
Proof.
  split; [reflexivity|].
  apply (mask_members "8d" (Cpuset.mk "0,2-3,7")). reflexivity.
Defined.

(** Two masks that write the same number give the same set: the case of
    the letters and leading zeros do not matter. *)
Theorem mask_value_determines (m1 m2 : string) (a b : Cpuset.t) :
  Cpuset.new m1 true = Ok a -> Cpuset.new m2 true = Ok b ->
  hex_number (Py.strip m1) = hex_number (Py.strip m2) ->
  a = b.
Proof.
  intros Ha Hb Hv.
  destruct (new_mask_ok m1 a Ha) as [H1 ->].
  destruct (new_mask_ok m2 b Hb) as [H2 ->].
  f_equal. unfold canonical_of_mask. f_equal. apply runs_bval.
  destruct (mask_bits_value _ H1) as [-> _].
  destruct (mask_bits_value _ H2) as [-> _]. exact Hv.
Qed.

Lemma mask_value_determines_witness :
  Cpuset.new "00F3" true = Ok (Cpuset.mk "0-1,4-7")
  /\ Cpuset.mk "0-1,4-7" = Cpuset.mk "0-1,4-7".
Proof.
  split; [reflexivity|].
  apply (mask_value_determines "00F3" " f3 "); reflexivity.
Defined.

(** What [_mask_to_range] returns, and so what [_list_to_range] returns, is
    the text of runs in ascending order, each from its first to its last
    CPU, with at least one absent CPU between two runs: adjacent CPUs are
    always merged into one run. *)
Theorem canonical_shape :
  (forall m r,
     Cpuset._mask_to_range m = Ok r ->
     exists rs, separated 0 rs /\ r = canonical rs)
  /\ (forall l r,
        Cpuset._list_to_range l = Ok r ->
        exists rs, separated 0 rs /\ r = canonical rs).
Proof.
  assert (Hm : forall m r,
             Cpuset._mask_to_range m = Ok r ->
             exists rs, separated 0 rs /\ r = canonical rs).
  { intros m r. rewrite mask_to_range_cases.
    destruct (is_hex_string m); [|discriminate].
    intros [= <-]. exists (runs 0 None (mask_bits m)).
    split; [apply runs_separated; lia | reflexivity]. }
  split; [exact Hm|].
  intros l r. unfold Cpuset._list_to_range.
  destruct (Cpuset.sum_shifts 0 (Py.split "," l)); [|discriminate].
  cbn [bind]. apply Hm.
Qed.

Lemma canonical_shape_witness :
  Cpuset._list_to_range "7,0,3,1,2" = Ok "0-3,7"
  /\ exists rs, separated 0 rs /\ "0-3,7" = canonical rs.
Proof.
  split; [reflexivity|].
  apply (proj2 canonical_shape "7,0,3,1,2"). reflexivity.
Defined.

(** ** Union and difference *)

Section SetOps.

Lemma entry_tokens_entry (r : Z * Z) :
  run_ok r ->
  entry_tokens (entry r) = map Py.str (Py.range (fst r) (snd r + 1)).
Proof.
  destruct r as [s l]. unfold run_ok, entry, closing. cbn [fst snd].
  intros [Hs Hl]. unfold entry_tokens.
  destruct (Z.eqb_spec s l) as [<-|Hsl].
  - rewrite append_nil_r.
    rewrite split_absent by (apply str_no; [assumption | reflexivity]).
    rewrite range_one. reflexivity.
  - change ("-" ++ Py.str l) with (String "-" (Py.str l)).
    rewrite split_app by (apply str_no; [assumption | reflexivity]).
    rewrite split_absent by (apply str_no; [lia | reflexivity]).
    rewrite !dec_value_str by lia. reflexivity.
Qed.

Lemma tokens_of_runs (rs : list (Z * Z)) :
  Forall run_ok rs ->
  flat_map entry_tokens (map entry rs) = map Py.str (run_members rs).
Proof.
  induction 1 as [|r rs Hr Hrs IH]; [reflexivity|].
  cbn [map flat_map]. unfold run_members in *. cbn [flat_map].
  rewrite map_app, IH, entry_tokens_entry by assumption. reflexivity.
Qed.

Lemma numbers_of_str (ps : list Z) :
  Forall (fun q => 0 <= q) ps ->
  Forall (fun t => is_number t = true) (map Py.str ps).
Proof.
  intros H. apply Forall_forall. intros t Ht.
  apply in_map_iff in Ht as [q [<- Hq]].
  rewrite Forall_forall in H. apply str_is_number, H, Hq.
Qed.

(** The tokens of [list()] for a canonical range string. *)
Lemma list_canonical (m : string) :
  exists l,
    Cpuset.list (Cpuset.mk (canonical_of_mask m)) = Ok l
    /\ Py.split "," l = list_tokens (positions 0 (mask_bits m)).
Proof.
  pose proof (canonical_positions m) as Hpos.
  destruct (String.eqb_spec (canonical_of_mask m) "") as [E|E].
  - exists "". rewrite E in *. cbn in Hpos. rewrite <- Hpos.
    split; reflexivity.
  - pose proof (mask_runs_ok m) as Hok.
    assert (Hne : runs 0 None (mask_bits m) <> [])
      by (intros H; apply E; unfold canonical_of_mask; rewrite H; reflexivity).
    unfold Cpuset.list.
    rewrite range_to_list_valid by (apply canonical_of_mask_valid || exact E).
    eexists. split; [reflexivity|].
    unfold canonical_of_mask at 1. rewrite canonical_split by assumption.
    rewrite tokens_of_runs by assumption.
    rewrite runs_members by discriminate. cbn [runs run_members flat_map app].
    assert (Hp : positions 0 (mask_bits m) <> []).
    { rewrite <- Hpos. unfold canonical_of_mask.
      rewrite canonical_members by assumption.
      destruct (runs 0 None (mask_bits m)) as [|r rs]; [congruence|].
      inversion Hok as [|? ? [Hr1 Hr2] _]; subst.
      cbn [run_members flat_map]. intros H.
      apply app_eq_nil in H as [H _]. revert H.
      apply range_nonempty. lia. }
    rewrite split_join.
    + unfold list_tokens.
      destruct (positions 0 (mask_bits m)); [congruence | reflexivity].
    + intros H. apply map_eq_nil in H. contradiction.
    + apply numbers_no_comma, numbers_of_str, positions_nonneg. lia.
Qed.

Lemma str_inj (a b : Z) : 0 <= a -> 0 <= b -> Py.str a = Py.str b -> a = b.
Proof.
  intros Ha Hb H. rewrite <- (dec_value_str a Ha), <- (dec_value_str b Hb), H.
  reflexivity.
Qed.

(** Membership among the tokens is membership among the CPUs. *)
Lemma mem_tokens (q : Z) (ps : list Z) :
  0 <= q -> Forall (fun p => 0 <= p) ps ->
  Py.mem (Py.str q) (list_tokens ps) = member q ps.
Proof.
  intros Hq Hps. unfold Py.mem, member, list_tokens.
  destruct ps as [|p ps].
  - cbn. destruct (String.eqb_spec (Py.str q) ""); [|reflexivity].
    exfalso. revert e. apply str_nonempty, Hq.
  - induction Hps as [|x xs Hx Hxs IH]; [reflexivity|].
    cbn [map existsb]. rewrite IH. f_equal.
    destruct (String.eqb_spec (Py.str q) (Py.str x)) as [E|E];
      destruct (Z.eqb_spec q x) as [E'|E']; try reflexivity.
    + exfalso. apply E', str_inj; assumption.
    + exfalso. apply E. congruence.
Qed.

(** The loops of [add_cpuset] and [remove_cpuset] keep the tokens that pass
    the test and are made of digits. *)
Lemma keep_digits_filter (f : string -> bool) (toks : list string) :
  forall acc,
  Cpuset.keep_digits (fun cpu => Ok (f cpu)) acc toks
  = Ok (fold_left Cpuset.emit
          (filter (fun t => f t && Py.isdigit t) toks) acc).
Proof.
  induction toks as [|t toks IH]; intros acc; [reflexivity|].
  cbn [Cpuset.keep_digits bind filter].
  destruct (f t), (Py.isdigit t); cbn [andb fold_left]; apply IH.
Qed.

Lemma keep_digits_ext (k1 k2 : string -> result bool) (toks : list string) :
  (forall t, k1 t = k2 t) ->
  forall acc, Cpuset.keep_digits k1 acc toks = Cpuset.keep_digits k2 acc toks.
Proof.
  intros H. induction toks as [|t toks IH]; intros acc; [reflexivity|].
  cbn [Cpuset.keep_digits]. rewrite H.
  destruct (k2 t) as [[]|]; cbn [bind]; [|apply IH|reflexivity].
  destruct (Py.isdigit t); apply IH.
Qed.

Lemma filter_tokens (f : string -> bool) (ps : list Z) :
  Forall (fun p => 0 <= p) ps ->
  filter (fun t => f t && Py.isdigit t) (list_tokens ps)
  = map Py.str (filter (fun p => f (Py.str p)) ps).
Proof.
  intros H. unfold list_tokens. destruct ps as [|p0 ps0].
  - cbn. rewrite andb_false_r. reflexivity.
  - induction H as [|p ps Hp Hps IH]; [reflexivity|].
    cbn [map filter]. rewrite IH.
    rewrite (number_isdigit _ (str_is_number p Hp)), andb_true_r.
    destruct (f (Py.str p)); reflexivity.
Qed.

Lemma join_str_nonempty (ps : list Z) :
  ps <> [] -> Forall (fun p => 0 <= p) ps ->
  Py.join "," (map Py.str ps) <> "".
Proof.
  intros Hne H. destruct H as [|p ps Hp Hps]; [congruence|].
  pose proof (str_nonempty p Hp) as Hs. cbn [map Py.join].
  destruct (Py.str p) eqn:E; [congruence|].
  destruct (map Py.str ps); discriminate.
Qed.

Lemma fold_emit_str (ps : list Z) :
  fst (fold_left Cpuset.emit (map Py.str ps) ("", ""))
  = match ps with [] => "" | _ => Py.join "," (map Py.str ps) end.
Proof.
  rewrite fold_emit. cbn [fst append].
  destruct ps; reflexivity.
Qed.

(** List notation without a repeated CPU is converted to the range string
    of its bit mask. *)
Lemma list_to_range_members (ps : list Z) :
  ps <> [] -> Forall (fun p => 0 <= p) ps -> NoDup ps ->
  Cpuset._list_to_range (Py.join "," (map Py.str ps))
  = Cpuset._mask_to_range (Py.format_x (bitmask ps)).
Proof.
  intros Hne Hnn Hnd. unfold Cpuset._list_to_range.
  rewrite split_join.
  - rewrite sum_shifts_numbers by (apply numbers_of_str; assumption).
    rewrite map_dec_str, sum2_bitmask by assumption. reflexivity.
  - intros H. apply map_eq_nil in H. contradiction.
  - apply numbers_no_comma, numbers_of_str. assumption.
Qed.

Lemma member_in (q : Z) (ps : list Z) : member q ps = true <-> In q ps.
Proof.
  unfold member. rewrite existsb_exists. split.
  - intros [x [Hx E]]. apply Z.eqb_eq in E. subst. exact Hx.
  - intros H. exists q. split; [exact H | apply Z.eqb_refl].
Qed.

Lemma member_app (q : Z) (a b : list Z) :
  member q (a ++ b) = member q a || member q b.
Proof. unfold member. apply existsb_app. Qed.

Lemma member_filter (q : Z) (g : Z -> bool) (ps : list Z) :
  member q (filter g ps) = member q ps && g q.
Proof.
  apply eq_true_iff_eq. rewrite andb_true_iff, !member_in, filter_In.
  reflexivity.
Qed.

Lemma bitmask_member (ps : list Z) (q : Z) :
  Forall (fun p => 0 <= p) ps -> 0 <= q ->
  Z.testbit (bitmask ps) q = member q ps.
Proof.
  intros Hps Hq. induction Hps as [|p ps Hp Hps IH].
  - unfold bitmask. cbn. apply Z.testbit_0_l.
  - unfold bitmask, member in *. cbn [fold_right existsb].
    rewrite Z.setbit_eqb by assumption. rewrite IH.
    f_equal. apply Z.eqb_sym.
Qed.

Lemma positions_member (bs : list bool) (q : Z) :
  0 <= q -> member q (positions 0 bs) = Z.testbit (bval bs) q.
Proof.
  intros Hq. apply eq_true_iff_eq.
  rewrite member_in, positions_testbit, Z.sub_0_r. tauto.
Qed.

Lemma positions_bitmask (bs : list bool) :
  bitmask (positions 0 bs) = bval bs.
Proof.
  rewrite <- sum2_bitmask
    by (apply positions_nodup || apply positions_nonneg; lia).
  pose proof (runs_sum bs 0 None ltac:(lia) ltac:(discriminate)) as E.
  rewrite runs_members in E by discriminate.
  cbn [runs run_members flat_map app sum2 fold_right] in E.
  fold (sum2 (positions 0 bs)) in E. lia.
Qed.

Lemma filter_str_member (ps qs : list Z) :
  Forall (fun p => 0 <= p) ps -> Forall (fun q => 0 <= q) qs ->
  filter (fun q => negb (Py.mem (Py.str q) (list_tokens ps))) qs
  = filter (fun q => negb (member q ps)) qs.
Proof.
  intros Hps Hqs. induction Hqs as [|q qs Hq Hqs IH]; [reflexivity|].
  cbn [filter]. rewrite IH, mem_tokens by assumption. reflexivity.
Qed.

Lemma new_format_x (v : Z) :
  0 <= v ->
  Cpuset.new (Py.format_x v) true
  = (r <- Cpuset._mask_to_range (Py.format_x v) ;; Ok (Cpuset.mk r)).
Proof.
  intros Hv. unfold Cpuset.new.
  rewrite strip_hex by (apply format_x_hex, Hv). reflexivity.
Qed.

End SetOps.

Section SetOpsMasks.

Variables m1 m2 : string.

Let P1 := positions 0 (mask_bits m1).
Let P2 := positions 0 (mask_bits m2).

Lemma P1_nonneg : Forall (fun p => 0 <= p) P1.
Proof. apply positions_nonneg. lia. Qed.

Lemma P2_nonneg : Forall (fun p => 0 <= p) P2.
Proof. apply positions_nonneg. lia. Qed.

Lemma filter_all (ps : list Z) : filter (fun _ => true) ps = ps.
Proof. induction ps as [|p ps IH]; cbn; congruence. Qed.

(** The list that [add_cpuset] hands to [_list_to_range]. *)
Lemma add_canonical :
  Cpuset.add_cpuset (Cpuset.mk (canonical_of_mask m1))
                    (Cpuset.mk (canonical_of_mask m2))
  = (r <- Cpuset._list_to_range
            (fst (fold_left Cpuset.emit
                    (map Py.str
                       (P1 ++ filter (fun q => negb (member q P1)) P2))
                    ("", ""))) ;;
     Ok (Cpuset.mk r)).
Proof.
  unfold Cpuset.add_cpuset.
  destruct (list_canonical m1) as [la [-> Hla]].
  destruct (list_canonical m2) as [lb [-> Hlb]]. cbn [bind].
  fold P1 in Hla. fold P2 in Hlb.
  set (ta := Py.split "," la) in *. clearbody ta. subst ta.
  set (tb := Py.split "," lb) in *. clearbody tb. subst tb.
  rewrite (keep_digits_filter (fun _ => true)). cbn [bind].
  rewrite (keep_digits_filter (fun t => negb (Py.mem t (list_tokens P1)))).
  cbn [bind].
  rewrite (filter_tokens (fun _ => true)) by apply P1_nonneg.
  rewrite (filter_tokens (fun t => negb (Py.mem t (list_tokens P1))))
    by apply P2_nonneg.
  rewrite filter_all, filter_str_member by (apply P1_nonneg || apply P2_nonneg).
  rewrite <- fold_left_app, <- map_app. reflexivity.
Qed.

(** The list that [remove_cpuset] builds. *)
Lemma remove_canonical :
  Cpuset.remove_cpuset (Cpuset.mk (canonical_of_mask m1))
                       (Cpuset.mk (canonical_of_mask m2))
  = (let l := fst (fold_left Cpuset.emit
                     (map Py.str (filter (fun q => negb (member q P2)) P1))
                     ("", "")) in
     if (l =? "")%string then Ok (Cpuset.mk "")
     else r <- Cpuset._list_to_range l ;; Ok (Cpuset.mk r)).
Proof.
  unfold Cpuset.remove_cpuset.
  destruct (list_canonical m1) as [la [-> Hla]].
  destruct (list_canonical m2) as [lb [Elb Hlb]]. cbn [bind].
  fold P1 in Hla. fold P2 in Hlb.
  rewrite (keep_digits_ext _
             (fun cpu => Ok (negb (Py.mem cpu (list_tokens P2)))))
    by (intros t; rewrite Elb; cbn [bind]; rewrite Hlb; reflexivity).
  rewrite Hla.
  rewrite (keep_digits_filter (fun t => negb (Py.mem t (list_tokens P2)))).
  cbn [bind].
  rewrite (filter_tokens (fun t => negb (Py.mem t (list_tokens P2))))
    by apply P1_nonneg.
  rewrite filter_str_member by (apply P1_nonneg || apply P2_nonneg).
  reflexivity.
Qed.

Lemma union_bitmask :
  bitmask (P1 ++ filter (fun q => negb (member q P1)) P2)
  = Z.lor (bval (mask_bits m1)) (bval (mask_bits m2)).
Proof.
  apply Z.bits_inj'. intros q Hq.
  rewrite bitmask_member;
    [|apply Forall_app; split; [apply P1_nonneg|]|assumption].
  - rewrite member_app, member_filter, Z.lor_spec.
    unfold P1, P2. rewrite !positions_member by assumption.
    destruct (Z.testbit (bval (mask_bits m1)) q),
             (Z.testbit (bval (mask_bits m2)) q); reflexivity.
  - apply Forall_forall. intros x Hx. apply filter_In in Hx as [Hx _].
    pose proof P2_nonneg as H. rewrite Forall_forall in H. apply H, Hx.
Qed.

Lemma union_nodup :
  NoDup (P1 ++ filter (fun q => negb (member q P1)) P2).
Proof.
  apply NoDup_app.
  - apply positions_nodup.
  - apply NoDup_filter, positions_nodup.
  - intros x H1 H2. apply filter_In in H2 as [_ H2].
    apply member_in in H1. rewrite H1 in H2. discriminate.
Qed.

Lemma difference_bitmask :
  bitmask (filter (fun q => negb (member q P2)) P1)
  = Z.ldiff (bval (mask_bits m1)) (bval (mask_bits m2)).
Proof.
  apply Z.bits_inj'. intros q Hq.
  rewrite bitmask_member; [| |assumption].
  - rewrite member_filter, Z.ldiff_spec.
    unfold P1, P2. rewrite !positions_member by assumption. reflexivity.
  - apply Forall_forall. intros x Hx. apply filter_In in Hx as [Hx _].
    pose proof P1_nonneg as H. rewrite Forall_forall in H. apply H, Hx.
Qed.

(** [add_cpuset] on canonical range strings is the bitwise or of the
    masks. *)
Lemma add_lor :
  bval (mask_bits m1) <> 0 \/ bval (mask_bits m2) <> 0 ->
  Cpuset.add_cpuset (Cpuset.mk (canonical_of_mask m1))
                    (Cpuset.mk (canonical_of_mask m2))
  = Cpuset.new
      (Py.format_x (Z.lor (bval (mask_bits m1)) (bval (mask_bits m2)))) true.
Proof.
  intros Hnz. rewrite add_canonical, fold_emit_str.
  pose proof union_bitmask as Hb. pose proof union_nodup as Hnd.
  set (U := (P1 ++ filter (fun q => negb (member q P1)) P2)%list) in *.
  assert (Hnn : Forall (fun p => 0 <= p) U).
  { apply Forall_app. split; [apply P1_nonneg|].
    apply Forall_forall. intros x Hx. apply filter_In in Hx as [Hx _].
    pose proof P2_nonneg as H. rewrite Forall_forall in H. apply H, Hx. }
  assert (Hne : U <> []).
  { intros E. rewrite E in Hb. unfold bitmask in Hb. cbn in Hb.
    symmetry in Hb. apply Z.lor_eq_0_iff in Hb. lia. }
  rewrite new_format_x
    by (apply Z.lor_nonneg; split; apply bval_nonneg).
  rewrite <- Hb.
  destruct U as [|u U'] eqn:EU; [congruence|]. rewrite <- EU in *.
  rewrite list_to_range_members by assumption. reflexivity.
Qed.

(** [remove_cpuset] on canonical range strings is the bitwise and-not of
    the masks. *)
Lemma remove_ldiff :
  Cpuset.remove_cpuset (Cpuset.mk (canonical_of_mask m1))
                       (Cpuset.mk (canonical_of_mask m2))
  = Cpuset.new
      (Py.format_x (Z.ldiff (bval (mask_bits m1)) (bval (mask_bits m2))))
      true.
Proof.
  rewrite remove_canonical. cbv zeta. rewrite fold_emit_str.
  pose proof difference_bitmask as Hb.
  set (D := filter (fun q => negb (member q P2)) P1) in *.
  assert (Hnn : Forall (fun p => 0 <= p) D).
  { apply Forall_forall. intros x Hx. apply filter_In in Hx as [Hx _].
    pose proof P1_nonneg as H. rewrite Forall_forall in H. apply H, Hx. }
  assert (Hnd : NoDup D) by apply NoDup_filter, positions_nodup.
  rewrite <- Hb.
  destruct D as [|d D'] eqn:ED; [reflexivity|]. rewrite <- ED in *.
  assert (Hne : D <> []) by (rewrite ED; discriminate).
  destruct (String.eqb_spec (Py.join "," (map Py.str D)) "") as [E|_].
  - exfalso. revert E. apply join_str_nonempty; assumption.
  - rewrite new_format_x by apply bitmask_nonneg.
    rewrite list_to_range_members by assumption. reflexivity.
Qed.

End SetOpsMasks.

Section MaskValues.

(** A set constructed from a mask is the set constructed from the
    hexadecimal numeral of the number that the mask writes. *)
Lemma new_value (m : string) (a : Cpuset.t) :
  Cpuset.new m true = Ok a ->
  is_hex_string (Py.strip m) = true
  /\ bval (mask_bits (Py.strip m)) = hex_number (Py.strip m)
  /\ a = Cpuset.mk (canonical_of_mask (Py.strip m))
  /\ Cpuset.new (Py.format_x (hex_number (Py.strip m))) true = Ok a.
Proof.
  intros H. destruct (new_mask_ok m a H) as [Hhex ->].
  destruct (mask_bits_value _ Hhex) as [Hv _].
  repeat split; try assumption.
  rewrite new_format_x by (apply hex_number_nonneg, Hhex).
  rewrite <- Hv, mask_to_range_format_x. reflexivity.
Qed.

Lemma hex_number_format_x (v : Z) :
  0 <= v -> hex_number (Py.strip (Py.format_x v)) = v.
Proof.
  intros Hv. rewrite strip_hex by (apply format_x_hex, Hv).
  destruct (mask_bits_value _ (format_x_hex v Hv)) as [<- _].
  apply format_x_bval, Hv.
Qed.

Lemma add_of_masks (m1 m2 : string) (a b : Cpuset.t) :
  Cpuset.new m1 true = Ok a -> Cpuset.new m2 true = Ok b ->
  hex_number (Py.strip m1) <> 0 \/ hex_number (Py.strip m2) <> 0 ->
  Cpuset.add_cpuset a b
  = Cpuset.new
      (Py.format_x
         (Z.lor (hex_number (Py.strip m1)) (hex_number (Py.strip m2))))
      true.
Proof.
  intros Ha Hb Hnz.
  destruct (new_value m1 a Ha) as (_ & V1 & -> & _).
  destruct (new_value m2 b Hb) as (_ & V2 & -> & _).
  rewrite <- V1, <- V2 in *. apply add_lor. exact Hnz.
Qed.

Lemma remove_of_masks (m1 m2 : string) (a b : Cpuset.t) :
  Cpuset.new m1 true = Ok a -> Cpuset.new m2 true = Ok b ->
  Cpuset.remove_cpuset a b
  = Cpuset.new
      (Py.format_x
         (Z.ldiff (hex_number (Py.strip m1)) (hex_number (Py.strip m2))))
      true.
Proof.
  intros Ha Hb.
  destruct (new_value m1 a Ha) as (_ & V1 & -> & _).
  destruct (new_value m2 b Hb) as (_ & V2 & -> & _).
  rewrite <- V1, <- V2. apply remove_ldiff.
Qed.

End MaskValues.

(** [add_cpuset] is the union: for two sets constructed from masks, not
    both empty, it leaves in [self] the set constructed from the bitwise or
    of the two masks. *)
Theorem add_is_or (m1 m2 : string) (a b : Cpuset.t) :
  Cpuset.new m1 true = Ok a -> Cpuset.new m2 true = Ok b ->
  hex_number (Py.strip m1) <> 0 \/ hex_number (Py.strip m2) <> 0 ->
  Cpuset.add_cpuset a b
  = Cpuset.new
      (Py.format_x
         (Z.lor (hex_number (Py.strip m1)) (hex_number (Py.strip m2))))
      true.
Proof. apply add_of_masks. Qed.

Lemma add_is_or_witness :
  Cpuset.new "0f" true = Ok (Cpuset.mk "0-3")
  /\ Cpuset.add_cpuset (Cpuset.mk "0-3") (Cpuset.mk "2-3,5-7")
     = Cpuset.new (Py.format_x (Z.lor 15 236)) true.
Proof.
  split; [reflexivity|].
  apply (add_is_or "0f" "EC"); try reflexivity.
  left. vm_compute. discriminate.
Defined.

(** [remove_cpuset] is the difference: for two sets constructed from
    masks, it leaves in [self] the set constructed from the bits of the
    first mask that are not in the second one. *)
Theorem remove_is_andnot (m1 m2 : string) (a b : Cpuset.t) :
  Cpuset.new m1 true = Ok a -> Cpuset.new m2 true = Ok b ->
  Cpuset.remove_cpuset a b
  = Cpuset.new
      (Py.format_x
         (Z.ldiff (hex_number (Py.strip m1)) (hex_number (Py.strip m2))))
      true.
Proof. apply remove_of_masks. Qed.

Lemma remove_is_andnot_witness :
  Cpuset.new "ff" true = Ok (Cpuset.mk "0-7")
  /\ Cpuset.remove_cpuset (Cpuset.mk "0-7") (Cpuset.mk "2-3")
     = Cpuset.new (Py.format_x (Z.ldiff 255 12)) true.
Proof.
  split; [reflexivity|].
  apply (remove_is_andnot "ff" "c"); reflexivity.
Defined.

(** [add_cpuset] commutes on sets constructed from masks: [a.add(b)] and
    [b.add(a)] leave the same set, or raise both. *)
Theorem add_commutes (m1 m2 : string) (a b : Cpuset.t) :
  Cpuset.new m1 true = Ok a -> Cpuset.new m2 true = Ok b ->
  Cpuset.add_cpuset a b = Cpuset.add_cpuset b a.
Proof.
  intros Ha Hb.
  destruct (Z.eq_dec (hex_number (Py.strip m1)) 0) as [E1|E1];
    [destruct (Z.eq_dec (hex_number (Py.strip m2)) 0) as [E2|E2]|].
  - destruct (new_value m1 a Ha) as (_ & V1 & -> & _).
    destruct (new_value m2 b Hb) as (_ & V2 & -> & _).
    rewrite <- V1 in E1. rewrite <- V2 in E2.
    apply runs_nil_bval in E1, E2.
    unfold canonical_of_mask. rewrite E1, E2. reflexivity.
  - rewrite (add_of_masks m1 m2 a b), (add_of_masks m2 m1 b a), Z.lor_comm; auto.
  - rewrite (add_of_masks m1 m2 a b), (add_of_masks m2 m1 b a), Z.lor_comm; auto.
Qed.

Lemma add_commutes_witness :
  Cpuset.new "f" true = Ok (Cpuset.mk "0-3")
  /\ Cpuset.add_cpuset (Cpuset.mk "0-3") (Cpuset.mk "5-7")
     = Cpuset.add_cpuset (Cpuset.mk "5-7") (Cpuset.mk "0-3").
Proof.
  split; [reflexivity|].
  apply (add_commutes "f" "e0"); reflexivity.
Defined.

(** Adding a set constructed from a mask, not empty, to itself leaves it
    as it is, and removing it from itself leaves the empty set. *)
Theorem self_operations (m : string) (a : Cpuset.t) :
  Cpuset.new m true = Ok a ->
  (hex_number (Py.strip m) <> 0 -> Cpuset.add_cpuset a a = Ok a)
  /\ Cpuset.remove_cpuset a a = Ok (Cpuset.mk "").
Proof.
  intros Ha. destruct (new_value m a Ha) as (_ & _ & _ & Hn). split.
  - intros Hnz. rewrite (add_of_masks m m a a) by auto.
    rewrite Z.lor_diag. exact Hn.
  - rewrite (remove_of_masks m m a a) by assumption.
    rewrite Z.ldiff_diag. reflexivity.
Qed.

Lemma self_operations_witness :
  Cpuset.new "8d" true = Ok (Cpuset.mk "0,2-3,7")
  /\ Cpuset.add_cpuset (Cpuset.mk "0,2-3,7") (Cpuset.mk "0,2-3,7")
     = Ok (Cpuset.mk "0,2-3,7").
Proof.
  split; [reflexivity|].
  apply (self_operations "8d" (Cpuset.mk "0,2-3,7")); [reflexivity|].
  vm_compute. discriminate.
Defined.

(** Removing an operand after adding it restores the set, when the two
    sets constructed from masks have no CPU in common. *)
Theorem remove_after_add (m1 m2 : string) (a b c : Cpuset.t) :
  Cpuset.new m1 true = Ok a -> Cpuset.new m2 true = Ok b ->
  Z.land (hex_number (Py.strip m1)) (hex_number (Py.strip m2)) = 0 ->
  Cpuset.add_cpuset a b = Ok c ->
  Cpuset.remove_cpuset c b = Ok a.
Proof.
  intros Ha Hb Hdisj Hadd.
  destruct (new_value m1 a Ha) as (H1 & _ & _ & Hn).
  destruct (new_value m2 b Hb) as (H2 & _ & _ & _).
  pose proof (hex_number_nonneg _ H1) as Hv1.
  pose proof (hex_number_nonneg _ H2) as Hv2.
  set (v1 := hex_number (Py.strip m1)) in *.
  set (v2 := hex_number (Py.strip m2)) in *.
  destruct (Z.eq_dec v1 0) as [E1|E1];
    [destruct (Z.eq_dec v2 0) as [E2|E2]|].
  - exfalso.
    destruct (new_value m1 a Ha) as (_ & V1 & -> & _).
    destruct (new_value m2 b Hb) as (_ & V2 & -> & _).
    fold v1 in V1. fold v2 in V2. rewrite E1 in V1. rewrite E2 in V2.
    apply runs_nil_bval in V1, V2.
    unfold canonical_of_mask in Hadd. rewrite V1, V2 in Hadd.
    vm_compute in Hadd. discriminate.
  - rewrite (add_of_masks m1 m2 a b) in Hadd by auto. fold v1 v2 in Hadd.
    rewrite (remove_of_masks _ m2 c b Hadd Hb). fold v2.
    rewrite hex_number_format_x by (apply Z.lor_nonneg; lia).
    replace (Z.ldiff (Z.lor v1 v2) v2) with v1; [exact Hn|].
    apply Z.bits_inj'. intros q Hq.
    rewrite Z.ldiff_spec, Z.lor_spec.
    assert (Hq' : Z.testbit (Z.land v1 v2) q = false)
      by (rewrite Hdisj; apply Z.testbit_0_l).
    rewrite Z.land_spec in Hq'.
    destruct (Z.testbit v1 q), (Z.testbit v2 q); discriminate || reflexivity.
  - rewrite (add_of_masks m1 m2 a b) in Hadd by auto. fold v1 v2 in Hadd.
    rewrite (remove_of_masks _ m2 c b Hadd Hb). fold v2.
    rewrite hex_number_format_x by (apply Z.lor_nonneg; lia).
    replace (Z.ldiff (Z.lor v1 v2) v2) with v1; [exact Hn|].
    apply Z.bits_inj'. intros q Hq.
    rewrite Z.ldiff_spec, Z.lor_spec.
    assert (Hq' : Z.testbit (Z.land v1 v2) q = false)
      by (rewrite Hdisj; apply Z.testbit_0_l).
    rewrite Z.land_spec in Hq'.
    destruct (Z.testbit v1 q), (Z.testbit v2 q); discriminate || reflexivity.
Qed.

Lemma remove_after_add_witness :
  Cpuset.add_cpuset (Cpuset.mk "0-3") (Cpuset.mk "5-7")
  = Ok (Cpuset.mk "0-3,5-7")
  /\ Cpuset.remove_cpuset (Cpuset.mk "0-3,5-7") (Cpuset.mk "5-7")
     = Ok (Cpuset.mk "0-3").
Proof.
  split; [reflexivity|].
  apply (remove_after_add "f" "e0" (Cpuset.mk "0-3") (Cpuset.mk "5-7"));
    reflexivity.
Defined.

(** ** The exceptions that can be raised *)

Section Exceptions.

Lemma value_error_input : input_error ValueError.
Proof. split; discriminate. Qed.

Lemma expand_raises (l : list string) :
  forall acc e, Cpuset.expand acc l = Raise e -> input_error e.
Proof.
  induction l as [|val l IH]; intros acc e; [discriminate|].
  cbn [Cpuset.expand].
  destruct (Py.contains "-" val) eqn:Hc; [|apply IH].
  destruct (Py.split "-" val) as [|n0 [|n1 rest]] eqn:Es.
  - destruct (split_cons "-" val) as [h [t E]]. congruence.
  - apply split_singleton in Es as [Es _]. congruence.
  - destruct (Py.int n0) as [lo|e0] eqn:E0; cbn [bind];
      [|intros [= <-]; rewrite (int_raises _ _ E0); apply value_error_input].
    destruct (Py.int n1) as [hi|e1] eqn:E1; cbn [bind];
      [apply IH
      |intros [= <-]; rewrite (int_raises _ _ E1); apply value_error_input].
Qed.

Lemma range_to_list_raises (self : Cpuset.t) (e : exn) :
  Cpuset._range_to_list self = Raise e -> input_error e.
Proof.
  unfold Cpuset._range_to_list.
  destruct (self.(cpus) =? "")%string; [discriminate|].
  destruct (Cpuset.expand _ _) as [r|e'] eqn:E; cbn [bind]; [discriminate|].
  intros [= <-]. eapply expand_raises, E.
Qed.

Lemma mask_to_range_raises (m : string) (e : exn) :
  Cpuset._mask_to_range m = Raise e -> input_error e.
Proof.
  rewrite mask_to_range_cases. destruct (is_hex_string m); [discriminate|].
  intros [= <-]. apply value_error_input.
Qed.

Lemma sum_shifts_input (l : list string) (acc : Z) (e : exn) :
  Cpuset.sum_shifts acc l = Raise e -> input_error e.
Proof.
  intros H. rewrite (sum_shifts_raises _ _ _ H). apply value_error_input.
Qed.

Lemma list_to_range_raises (l : string) (e : exn) :
  Cpuset._list_to_range l = Raise e -> input_error e.
Proof.
  unfold Cpuset._list_to_range.
  destruct (Cpuset.sum_shifts 0 (Py.split "," l)) as [v|e'] eqn:E;
    cbn [bind].
  - apply mask_to_range_raises.
  - intros [= <-]. eapply sum_shifts_input, E.
Qed.

Lemma keep_digits_raises (keep : string -> result bool) (l : list string) :
  (forall t e, keep t = Raise e -> input_error e) ->
  forall acc e, Cpuset.keep_digits keep acc l = Raise e -> input_error e.
Proof.
  intros Hk. induction l as [|t l IH]; intros acc e; [discriminate|].
  cbn [Cpuset.keep_digits].
  destruct (keep t) as [[]|e'] eqn:E; cbn [bind].
  - destruct (Py.isdigit t); apply IH.
  - apply IH.
  - intros [= <-]. eapply Hk, E.
Qed.

End Exceptions.

(** No method raises [IndexError] or [UnboundLocalError], whatever the text
    of the sets: [bit] is never read before it is assigned in
    [_mask_to_range], and [nums\[1\]] always exists in [_range_to_list]. *)
Theorem never_index_or_unbound_error (e : exn) :
  (forall text mask,
     Cpuset.new text mask = Raise e ->
     e <> IndexError /\ e <> UnboundLocalError)
  /\ (forall self,
        Cpuset.list self = Raise e ->
        e <> IndexError /\ e <> UnboundLocalError)
  /\ (forall self,
        Cpuset.mask self = Raise e ->
        e <> IndexError /\ e <> UnboundLocalError)
  /\ (forall self other,
        Cpuset.add_cpuset self other = Raise e ->
        e <> IndexError /\ e <> UnboundLocalError)
  /\ (forall self other,
        Cpuset.remove_cpuset self other = Raise e ->
        e <> IndexError /\ e <> UnboundLocalError).
Proof.
  change (e <> IndexError /\ e <> UnboundLocalError) with (input_error e).
  split; [|split; [|split; [|split]]].
  - intros text mask. unfold Cpuset.new. destruct mask; [|discriminate].
    destruct (Cpuset._mask_to_range (Py.strip text)) as [r|e'] eqn:E;
      cbn [bind]; [discriminate|].
    intros [= <-]. eapply mask_to_range_raises, E.
  - intros self. apply range_to_list_raises.
  - intros self. unfold Cpuset.mask, Cpuset._range_to_mask.
    destruct (self.(cpus) =? "")%string; [discriminate|].
    destruct (Cpuset._range_to_list self) as [l|e'] eqn:E; cbn [bind];
      [|intros [= <-]; eapply range_to_list_raises, E].
    destruct (Cpuset.sum_shifts 0 (Py.split "," l)) as [v|e'] eqn:E';
      cbn [bind]; [discriminate|].
    intros [= <-]. eapply sum_shifts_input, E'.
  - intros self other. unfold Cpuset.add_cpuset, Cpuset.list.
    destruct (Cpuset._range_to_list self) as [la|e'] eqn:Ea; cbn [bind];
      [|intros [= <-]; eapply range_to_list_raises, Ea].
    destruct (Cpuset._range_to_list other) as [lb|e'] eqn:Eb; cbn [bind];
      [|intros [= <-]; eapply range_to_list_raises, Eb].
    rewrite keep_digits_filter. cbn [bind].
    rewrite (keep_digits_filter
               (fun t => negb (Py.mem t (Py.split "," la)))).
    cbn [bind].
    match goal with
    | |- context [Cpuset._list_to_range ?x] =>
        destruct (Cpuset._list_to_range x) as [r|e'] eqn:E
    end; cbn [bind]; [discriminate|].
    intros [= <-]. eapply list_to_range_raises, E.
  - intros self other. unfold Cpuset.remove_cpuset, Cpuset.list.
    destruct (Cpuset._range_to_list self) as [la|e'] eqn:Ea; cbn [bind];
      [|intros [= <-]; eapply range_to_list_raises, Ea].
    match goal with
    | |- context [Cpuset.keep_digits ?k ?x ?y] =>
        destruct (Cpuset.keep_digits k x y) as [acc|e'] eqn:Ek
    end; cbn [bind].
    + destruct (fst acc =? "")%string; [discriminate|].
      destruct (Cpuset._list_to_range (fst acc)) as [r|e''] eqn:E;
        cbn [bind]; [discriminate|].
      intros [= <-]. eapply list_to_range_raises, E.
    + intros [= <-]. eapply keep_digits_raises; [|exact Ek].
      intros t e0.
      destruct (Cpuset._range_to_list other) as [lb|e''] eqn:Eb; cbn [bind];
        [discriminate|].
      intros [= <-]. eapply range_to_list_raises, Eb.
Qed.

Lemma never_index_or_unbound_error_witness :
  Cpuset.list (Cpuset.mk "3-") = Raise ValueError
  /\ ValueError <> IndexError /\ ValueError <> UnboundLocalError.
Proof.
  split; [reflexivity|].
  apply (proj1 (proj2 (never_index_or_unbound_error ValueError))
           (Cpuset.mk "3-")).
  reflexivity.
Defined.

(** ** List notation *)

(** [list()] of valid range notation, not empty, is a comma-separated list
    of decimal numbers: the CPUs that the entries denote, in the order of
    the entries. *)
Theorem list_members (r : string) :
  valid_range r = true -> r <> "" ->
  exists l,
    Cpuset.list (Cpuset.mk r) = Ok l
    /\ Forall (fun t => is_number t = true) (Py.split "," l)
    /\ map dec_value (Py.split "," l) = members_of r.
Proof.
  intros Hv Hne. unfold Cpuset.list.
  rewrite range_to_list_valid by assumption.
  eexists. split; [reflexivity|].
  pose proof (valid_range_entries r Hv Hne) as Hes.
  destruct (flat_map_tokens _ Hes) as (Hnum & Hmem & Hnil).
  rewrite split_join.
  - split; [exact Hnum|]. rewrite Hmem. unfold members_of.
    destruct (String.eqb_spec r ""); [congruence | reflexivity].
  - apply Hnil. destruct (split_cons "," r) as [h [t ->]]. discriminate.
  - apply numbers_no_comma, Hnum.
Qed.

Lemma list_members_witness :
  valid_range "7,0-3" = true
  /\ exists l,
       Cpuset.list (Cpuset.mk "7,0-3") = Ok l
       /\ Forall (fun t => is_number t = true) (Py.split "," l)
       /\ map dec_value (Py.split "," l) = members_of "7,0-3".
Proof.
  split; [reflexivity|].
  apply (list_members "7,0-3"); [reflexivity | discriminate].
Defined.

(** An entry [a-b] of two numbers lists the CPUs from [a] to [b]; when the
    bounds are reversed it lists none: [list()] is then the empty string
    and [mask()] raises [ValueError]. *)
Theorem dash_entry (a b : string) :
  is_number a = true -> is_number b = true ->
  Cpuset.list (Cpuset.mk (a ++ "-" ++ b))
  = Ok (Py.join "," (map Py.str (Py.range (dec_value a) (dec_value b + 1))))
  /\ (dec_value b < dec_value a ->
      Cpuset.list (Cpuset.mk (a ++ "-" ++ b)) = Ok ""
      /\ Cpuset.mask (Cpuset.mk (a ++ "-" ++ b)) = Raise ValueError).
Proof.
  intros Ha Hb.
  assert (Hlist : Cpuset._range_to_list (Cpuset.mk (a ++ "-" ++ b))
                  = Ok (Py.join ","
                          (map Py.str
                             (Py.range (dec_value a) (dec_value b + 1))))).
  { unfold Cpuset._range_to_list. cbn [cpus].
    change ("-" ++ b) with (String "-" b).
    assert (Hne : a ++ String "-" b <> "")
      by (apply append_nonempty_r; discriminate).
    destruct (String.eqb_spec (a ++ String "-" b) ""); [congruence|].
    rewrite split_absent.
    - cbn [Cpuset.expand]. rewrite contains_app. cbn [Py.contains].
      rewrite Ascii.eqb_refl. cbn [orb]. rewrite orb_true_r.
      rewrite split_app by (apply number_absent; [assumption | reflexivity]).
      rewrite split_absent
        by (apply number_absent; [assumption | reflexivity]).
      rewrite (int_number a Ha), (int_number b Hb). cbn [bind].
      rewrite fold_left_map, fold_emit. cbn [fst append].
      destruct (map Py.str _); reflexivity.
    - rewrite contains_app. cbn [Py.contains].
      rewrite !(number_absent ",") by (assumption || reflexivity).
      reflexivity. }
  split; [exact Hlist|].
  intros Hrev.
  assert (Hempty : Py.range (dec_value a) (dec_value b + 1) = []).
  { unfold Py.range.
    replace (Z.to_nat (dec_value b + 1 - dec_value a)) with 0%nat by lia.
    reflexivity. }
  rewrite Hempty in Hlist. cbn [map Py.join] in Hlist.
  split; [exact Hlist|].
  unfold Cpuset.mask, Cpuset._range_to_mask. cbn [cpus].
  change ("-" ++ b) with (String "-" b).
  destruct (String.eqb_spec (a ++ String "-" b) "") as [E|_].
  - exfalso. revert E. apply append_nonempty_r. discriminate.
  - change (String "-" b) with ("-" ++ b). rewrite Hlist. reflexivity.
Qed.

Lemma dash_entry_witness :
  is_number "5" = true
  /\ Cpuset.mask (Cpuset.mk "5-3") = Raise ValueError.
Proof.
  split; [reflexivity|].
  apply (dash_entry "5" "3"); reflexivity.
Defined.

(** ** Empty text *)

Section Blank.

Lemma lstrip_blank (sp : ascii -> bool) (s : string) :
  Py.all_chars sp s = true -> Py.lstrip_with sp s = "".
Proof.
  induction s as [|c s IH]; [reflexivity|]. simpl.
  intros H. apply andb_true_iff in H as [Hc Hs]. rewrite Hc. auto.
Qed.

End Blank.

(** Text made of white space only gives the empty set, from range text as
    from mask text, and the list and mask notations of the empty set are
    empty strings. *)
Theorem blank_text (text : string) (mask : bool) :
  Py.all_chars Py.is_space text = true ->
  Cpuset.new text mask = Ok (Cpuset.mk "")
  /\ Cpuset.list (Cpuset.mk "") = Ok ""
  /\ Cpuset.mask (Cpuset.mk "") = Ok "".
Proof.
  intros H. split; [|split; reflexivity].
  unfold Cpuset.new, Py.strip. rewrite lstrip_blank by assumption.
  destruct mask; reflexivity.
Qed.

Lemma blank_text_witness :
  Py.all_chars Py.is_space "  " = true
  /\ Cpuset.new "  " true = Ok (Cpuset.mk "").
Proof.
  split; [reflexivity|].
  apply (blank_text "  " true). reflexivity.
Defined.

(** ** Mask notation of a set constructed from a mask *)

(** The mask notation of a set constructed from a mask is the grouping of
    the hexadecimal numeral of the number that the mask writes, in lower
    case and without leading zeros; it is the empty string when that
    number is zero. *)
Theorem mask_normalised (m : string) (a : Cpuset.t) :
  Cpuset.new m true = Ok a ->
  Cpuset.mask a
  = if hex_number (Py.strip m) =? 0 then Ok ""
    else Ok (Cpuset.group_hex (Py.format_x (hex_number (Py.strip m)))).
Proof.
  intros Ha. destruct (new_value m a Ha) as (Hhex & Hv & -> & _).
  rewrite <- Hv. rewrite mask_via_bitsum. cbn [cpus].
  destruct (Z.eqb_spec (bval (mask_bits (Py.strip m))) 0) as [E|E].
  - apply runs_nil_bval in E. unfold canonical_of_mask. rewrite E.
    reflexivity.
  - destruct (String.eqb_spec (canonical_of_mask (Py.strip m)) "") as [E'|E'].
    + exfalso. apply E, runs_nil_bval.
      apply canonical_empty_iff; [apply mask_runs_ok | exact E'].
    + rewrite bitsum_canonical by exact E'. reflexivity.
Qed.

Lemma mask_normalised_witness :
  Cpuset.new "00FF00ff00" true = Ok (Cpuset.mk "8-15,24-31")
  /\ Cpuset.mask (Cpuset.mk "8-15,24-31") = Ok "ff00ff00".
Proof.
  split; [reflexivity|].
  rewrite (mask_normalised "00FF00ff00" (Cpuset.mk "8-15,24-31"));
    reflexivity.
Defined.

(** ** The groups of mask notation *)

Section Groups.

Lemma substring_nil (i k : nat) : substring i k "" = "".
Proof. destruct i, k; reflexivity. Qed.

Lemma substring_zero (s : string) : forall i, substring i 0 s = "".
Proof.
  induction s as [|c s IH]; intros i; [apply substring_nil|].
  destruct i; simpl; auto.
Qed.

Lemma substring_split (s : string) :
  forall i a b,
  substring i (a + b) s = substring i a s ++ substring (i + a) b s.
Proof.
  induction s as [|c s IH]; intros i a b.
  - rewrite !substring_nil. reflexivity.
  - destruct i as [|i].
    + destruct a as [|a].
      * cbn [Nat.add]. rewrite substring_zero. reflexivity.
      * cbn [Nat.add substring append]. f_equal. apply (IH 0%nat).
    + cbn [Nat.add substring]. apply IH.
Qed.

Lemma substring_length (s : string) :
  forall i k,
  (i + k <= String.length s)%nat -> String.length (substring i k s) = k.
Proof.
  induction s as [|c s IH]; intros i k H; cbn [String.length] in H.
  - assert (k = 0%nat) by lia. subst. rewrite substring_nil. reflexivity.
  - destruct i as [|i].
    + destruct k as [|k]; [reflexivity|]. cbn [substring String.length].
      f_equal. apply IH. lia.
    + cbn [substring]. apply IH. lia.
Qed.

Lemma without_commas_app (a b : string) :
  without_commas (a ++ b) = without_commas a ++ without_commas b.
Proof.
  induction a as [|c a IH]; [reflexivity|]. cbn [append without_commas].
  destruct (Ascii.eqb c ","); cbn [append]; congruence.
Qed.

Lemma without_commas_id (s : string) :
  Py.contains "," s = false -> without_commas s = s.
Proof.
  induction s as [|c s IH]; [reflexivity|]. cbn [Py.contains without_commas].
  intros H. apply orb_false_iff in H as [Hc Hs].
  rewrite Hc, IH by assumption. reflexivity.
Qed.

Lemma without_commas_join (l : list string) :
  Forall (fun x => Py.contains "," x = false) l ->
  without_commas (Py.join "," l) = fold_right append "" l.
Proof.
  induction 1 as [|x l Hx Hl IH]; [reflexivity|].
  destruct l as [|y l].
  - cbn. rewrite append_nil_r. apply without_commas_id, Hx.
  - change (Py.join "," (x :: y :: l))
      with (x ++ String "," (Py.join "," (y :: l))).
    rewrite without_commas_app. cbn [without_commas Ascii.eqb Bool.eqb].
    rewrite without_commas_id, IH by assumption. reflexivity.
Qed.

Lemma range8_done (fuel n : nat) : Py.range8 fuel n n = [].
Proof. destruct fuel; cbn [Py.range8]; [|rewrite Nat.ltb_irrefl]; reflexivity. Qed.

(** The slices of the list comprehension, put end to end. *)
Lemma chunks_concat (h : string) (k : nat) :
  forall i fuel,
  (i + 8 * k = String.length h)%nat -> (k <= fuel)%nat ->
  fold_right append ""
    (map (fun j => Py.slice j (j + 8) h)
         (Py.range8 fuel i (String.length h)))
  = substring i (8 * k) h.
Proof.
  induction k as [|k IH]; intros i fuel Hn Hf.
  - replace i with (String.length h) by lia.
    rewrite range8_done, substring_zero. reflexivity.
  - destruct fuel as [|f]; [lia|]. cbn [Py.range8].
    destruct (Nat.ltb_spec i (String.length h)); [|lia].
    cbn [map fold_right]. rewrite (IH (i + 8)%nat f) by lia.
    unfold Py.slice. replace (i + 8 - i)%nat with 8%nat by lia.
    replace (8 * S k)%nat with (8 + 8 * k)%nat by lia.
    rewrite substring_split. reflexivity.
Qed.

Lemma chunks_eight (h : string) (k : nat) :
  forall i fuel,
  (i + 8 * k = String.length h)%nat ->
  Forall (fun g => String.length g = 8%nat)
    (map (fun j => Py.slice j (j + 8) h)
         (Py.range8 fuel i (String.length h))).
Proof.
  induction k as [|k IH]; intros i fuel Hn.
  - replace i with (String.length h) by lia.
    rewrite range8_done. constructor.
  - destruct fuel as [|f]; [constructor|]. cbn [Py.range8].
    destruct (Nat.ltb_spec i (String.length h)); [|constructor].
    cbn [map]. constructor; [|apply IH; lia].
    unfold Py.slice. replace (i + 8 - i)%nat with 8%nat by lia.
    apply substring_length. lia.
Qed.

Lemma contains_substring (c : ascii) (s : string) :
  Py.contains c s = false ->
  forall i k, Py.contains c (substring i k s) = false.
Proof.
  intros H i k.
  apply (all_chars_contains (fun x => negb (Ascii.eqb x c)));
    [|rewrite Ascii.eqb_refl; reflexivity].
  apply substring_all. clear i k.
  induction s as [|x s IH]; [reflexivity|]. cbn [Py.contains] in H.
  apply orb_false_iff in H as [Hx Hs]. cbn [Py.all_chars].
  rewrite Hx, IH by assumption. reflexivity.
Qed.

Lemma chunks_no_comma (h : string) (l : list nat) :
  Py.contains "," h = false ->
  Forall (fun x => Py.contains "," x = false)
    (map (fun j => Py.slice j (j + 8) h) l).
Proof.
  intros H. apply Forall_forall. intros x Hx.
  apply in_map_iff in Hx as [j [<- _]]. apply contains_substring, H.
Qed.

End Groups.

(** The grouping of mask notation only inserts commas into the hexadecimal
    numeral: without its commas, what [_range_to_mask] builds from the
    numeral is the numeral; the first group has at most 8 digits, and each
    other group has exactly 8 digits, or is the empty group that follows a
    trailing comma. *)
Theorem group_hex_digits (h : string) :
  Py.contains "," h = false ->
  without_commas (Cpuset.group_hex h) = h
  /\ (String.length (hd "" (Py.split "," (Cpuset.group_hex h))) <= 8)%nat
  /\ Forall (fun g => String.length g = 8%nat \/ g = "")
       (tl (Py.split "," (Cpuset.group_hex h))).
Proof.
  intros Hc. unfold Cpuset.group_hex.
  set (n := String.length h).
  pose proof (Nat.div_mod_eq n 8) as Hdm.
  pose proof (Nat.mod_upper_bound n 8 ltac:(lia)) as Hmod.
  set (start := (n mod 8)%nat) in *. set (k := (n / 8)%nat) in *.
  assert (Hn : (start + 8 * k = String.length h)%nat) by (fold n; lia).
  set (chunks := map (fun j => Py.slice j (j + 8) h)
                     (Py.range8 n start n)).
  assert (Hcat : fold_right append "" chunks = substring start (8 * k) h)
    by (apply chunks_concat; [exact Hn | fold n; lia]).
  assert (Hlen : Forall (fun g => String.length g = 8%nat) chunks)
    by (apply (chunks_eight h k); exact Hn).
  assert (Hnc : Forall (fun x => Py.contains "," x = false) chunks)
    by (apply chunks_no_comma, Hc).
  assert (Hsplit : Py.split "," (Py.join "," chunks)
                   = match chunks with [] => [""] | _ => chunks end).
  { destruct chunks as [|x l] eqn:E; [reflexivity|].
    apply split_join; [discriminate | assumption]. }
  destruct (Nat.eqb_spec start 0) as [Hz|Hnz]; cbn [negb append].
  - split; [|split].
    + rewrite without_commas_join, Hcat, Hz by assumption.
      replace (8 * k)%nat with (String.length h) by lia.
      apply substring_full.
    + rewrite Hsplit. destruct chunks as [|x l]; cbn [hd]; [cbn; lia|].
      inversion Hlen; subst. lia.
    + rewrite Hsplit. destruct chunks as [|x l]; cbn [tl]; [constructor|].
      inversion Hlen; subst. eapply Forall_impl; [|eassumption].
      cbn. tauto.
  - assert (H0 : Py.contains "," (Py.slice 0 start h) = false)
      by apply contains_substring, Hc.
    assert (E : (Py.slice 0 start h ++ ",") ++ Py.join "," chunks
                = Py.slice 0 start h ++ String "," (Py.join "," chunks))
      by (rewrite append_assoc; reflexivity).
    rewrite E. split; [|split].
    + rewrite without_commas_app. cbn [without_commas Ascii.eqb Bool.eqb].
      rewrite without_commas_id, without_commas_join, Hcat by assumption.
      unfold Py.slice. rewrite Nat.sub_0_r.
      pose proof (substring_split h 0 start (8 * k)) as Hs.
      cbn [Nat.add] in Hs. rewrite <- Hs, Hn. apply substring_full.
    + rewrite split_app by assumption. cbn [hd].
      unfold Py.slice. rewrite substring_length; lia.
    + rewrite split_app, Hsplit by assumption. cbn [tl].
      destruct chunks as [|x l].
      * constructor; [right; reflexivity | constructor].
      * eapply Forall_impl; [|exact Hlen]. cbn. tauto.
Qed.

Lemma group_hex_digits_witness :
  Py.contains "," "80ff00ff00" = false
  /\ Cpuset.group_hex "80ff00ff00" = "80,ff00ff00"
  /\ without_commas (Cpuset.group_hex "80ff00ff00") = "80ff00ff00".
Proof.
  split; [reflexivity|]. split; [reflexivity|].
  apply (group_hex_digits "80ff00ff00"). reflexivity.
Defined.

(** ** List notation of a set constructed from a mask *)

Section Ascending.

Lemma positions_sorted (bs : list bool) :
  forall pos, StronglySorted Z.lt (positions pos bs).
Proof.
  induction bs as [|b bs IH]; intros pos; cbn [positions]; [constructor|].
  destruct b; cbn [app]; [|apply IH].
  constructor; [apply IH|].
  apply Forall_forall. intros q Hq. apply positions_lb in Hq. lia.
Qed.

End Ascending.

(** [list()] of a set constructed from a mask that is not zero writes the
    CPUs of the set in ascending order, each one once, as decimal numbers
    separated by commas. *)
Theorem mask_list_ascending (m : string) (a : Cpuset.t) :
  Cpuset.new m true = Ok a -> hex_number (Py.strip m) <> 0 ->
  exists ps,
    Cpuset.list a = Ok (Py.join "," (map Py.str ps))
    /\ StronglySorted Z.lt ps
    /\ ps = members_of a.(cpus).
Proof.
  intros Ha Hnz. destruct (new_value m a Ha) as (_ & Hv & -> & _).
  cbn [cpus]. exists (positions 0 (mask_bits (Py.strip m))).
  split; [|split; [apply positions_sorted | symmetry; apply canonical_positions]].
  destruct (list_canonical (Py.strip m)) as [l [-> Hl]]. f_equal.
  rewrite <- (join_split "," l), Hl. unfold list_tokens.
  destruct (positions 0 (mask_bits (Py.strip m))) eqn:E; [|reflexivity].
  exfalso. apply Hnz. rewrite <- Hv, <- positions_bitmask, E. reflexivity.
Qed.

Lemma mask_list_ascending_witness :
  Cpuset.new "8d" true = Ok (Cpuset.mk "0,2-3,7")
  /\ exists ps,
       Cpuset.list (Cpuset.mk "0,2-3,7") = Ok (Py.join "," (map Py.str ps))
       /\ StronglySorted Z.lt ps
       /\ ps = members_of "0,2-3,7".
Proof.
  split; [reflexivity|].
  apply (mask_list_ascending "8d" (Cpuset.mk "0,2-3,7")); [reflexivity|].
  vm_compute. discriminate.
Defined.
